(** * The command framework of revolt.py: [revolt/ext/commands/client.py]

    A shallow embedding of [CommandsMeta], [CaseInsensitiveDict] and
    [CommandsClient], and the properties of the registry, of command
    discovery, of the message pipeline and of extension loading.

    A Python string is modelled by the [string] of its UTF-8 bytes, with
    [str.casefold] as a parameter ([CaseFold]); a [dict] by a [gmap];
    objects that the code compares by identity carry an object id. *)

From Stdlib Require Import Ascii.
From stdpp Require Import base option list gmap strings fin_maps.

Set Warnings "-clear-no-such-hyp".
Local Open Scope string_scope.
Local Open Scope list_scope.

(** ** Strings *)

Module Str.

(** ASCII lowering: the capital letters A to Z are lowered, every other
    byte is left as it is. *)
Definition lower_char (c : ascii) : ascii :=
  let n := nat_of_ascii c in
  if Nat.leb 65 n && Nat.leb n 90 then ascii_of_nat (n + 32) else c.

Fixpoint lower (s : string) : string :=
  match s with
  | EmptyString => EmptyString
  | String c s' => String (lower_char c) (lower s')
  end.

(** A string of ASCII characters: no byte has its high bit set. *)
Definition is_ascii_char (c : ascii) : bool :=
  match c with Ascii _ _ _ _ _ _ _ b7 => negb b7 end.

Fixpoint is_ascii (s : string) : bool :=
  match s with
  | EmptyString => true
  | String c s' => is_ascii_char c && is_ascii s'
  end.

(** [s.startswith(p)] *)
Fixpoint startswith (s p : string) {struct p} : bool :=
  match p, s with
  | EmptyString, _ => true
  | String _ _, EmptyString => false
  | String a p', String b s' => if decide (a = b) then startswith s' p' else false
  end.

(** [s[n:]] *)
Fixpoint slice_from (n : nat) (s : string) : string :=
  match n, s with
  | O, _ => s
  | S _, EmptyString => EmptyString
  | S n', String _ s' => slice_from n' s'
  end.

(** Truth value of a string: [not s] holds of the empty string only. *)
Definition truthy (s : string) : bool :=
  match s with EmptyString => false | String _ _ => true end.

End Str.

(** ** Case folding *)

(** [str.casefold] is a builtin of the language, the full case folding of
    Unicode, and no code of the module: it is taken as a parameter, of
    which the development uses that it lowers ASCII text.  A string stands
    for the UTF-8 encoding of the Python string. *)
Class CaseFold : Type := {
  casefold : string → string;
  casefold_ascii : ∀ s, Str.is_ascii s = true → casefold s = Str.lower s
}.

(** The fold of the concrete runs, all of whose strings are ASCII. *)
#[global] Instance ascii_fold : CaseFold | 100 :=
  {| casefold := Str.lower; casefold_ascii := fun s _ => eq_refl |}.

(** ** Exceptions and results *)

(** The exceptions the module raises or handles.  [OtherException] stands
    for any other instance of [Exception], [OtherBaseException] for the
    instances of [BaseException] that are not instances of [Exception]
    ([SystemExit], [KeyboardInterrupt], [asyncio.CancelledError]). *)
Inductive exn : Type :=
| KeyError (key : string)
| StopIteration
| NotImplementedError
| CheckError (msg : string)
| CommandNotFound (name : string)
| MissingSetup (msg : string)
| OtherException (tag : nat)
| OtherBaseException (tag : nat).

#[global] Instance exn_eq_dec : EqDecision exn.
Proof. solve_decision. Defined.

(** [isinstance(e, Exception)]: what [except Exception] catches. *)
Definition is_Exception (e : exn) : bool :=
  match e with
  | OtherBaseException _ => false
  | _ => true
  end.

Inductive result (A : Type) : Type :=
| Return (a : A)
| Raise (e : exn).
Arguments Return {A} a.
Arguments Raise {A} e.

(** ** Commands *)

(** A cog is referred to by the command that it owns. *)
Record Cog : Type := mkCog { cog_id : nat; cog_name : string }.

#[global] Instance Cog_eq_dec : EqDecision Cog.
Proof. solve_decision. Defined.

(** The fields of [Command] that the client reads.  [cmd_id] is the
    identity of the object: [Command] defines no [__eq__], so two commands
    are equal, and hash alike, when they are the same object. *)
Record Command : Type := mkCommand {
  cmd_id : nat;
  name : string;
  aliases : list string;
  cog : option Cog
}.

#[global] Instance Command_eq_dec : EqDecision Command.
Proof. solve_decision. Defined.

(** ** The registry: [dict] and [CaseInsensitiveDict] *)

Module Registry.

(** [all_commands] is a [dict] or, when [case_insensitive] was given, a
    [CaseInsensitiveDict]: the flag records which class the object has. *)
Record t : Type := mk {
  case_insensitive : bool;
  entries : gmap string Command
}.

(** The key under which the overridden methods of [CaseInsensitiveDict]
    reach [dict]: [key.casefold()]; a plain [dict] takes the key as is. *)
Definition fold_key {CF : CaseFold} (d : t) (key : string) : string :=
  if case_insensitive d then casefold key else key.

(** [{}] and [CaseInsensitiveDict()] *)
Definition empty (ci : bool) : t := mk ci ∅.

(** [d[key] = value] *)
Definition setitem {CF : CaseFold} (d : t) (key : string) (value : Command) : t :=
  mk (case_insensitive d) (<[fold_key d key := value]> (entries d)).

(** [d[key]]; [Raise (KeyError key)] when absent. *)
Definition getitem {CF : CaseFold} (d : t) (key : string) : result Command :=
  match entries d !! fold_key d key with
  | Some c => Return c
  | None => Raise (KeyError (fold_key d key))
  end.

(** [key in d] *)
Definition contains {CF : CaseFold} (d : t) (key : string) : bool :=
  bool_decide (is_Some (entries d !! fold_key d key)).

(** [d.get(key, None)] *)
Definition get {CF : CaseFold} (d : t) (key : string) : option Command :=
  entries d !! fold_key d key.

(** [del d[key]] *)
Definition delitem {CF : CaseFold} (d : t) (key : string) : result t :=
  match entries d !! fold_key d key with
  | Some _ => Return (mk (case_insensitive d) (delete (fold_key d key) (entries d)))
  | None => Raise (KeyError (fold_key d key))
  end.

(** [d.pop(key, None)].  [CaseInsensitiveDict] does not override [pop]:
    the method is [dict.pop] for both classes, which hashes the key it is
    given and calls none of the overridden methods. *)
Definition pop (d : t) (key : string) : option Command * t :=
  (entries d !! key, mk (case_insensitive d) (delete key (entries d))).

(** [d.values()], in no particular order. *)
Definition values (d : t) : list Command :=
  snd <$> map_to_list (entries d).

End Registry.

(** ** The client *)

(** [help.py] is not part of the module: a help command is known by its
    class and by the identity of the object. *)
Inductive HelpCommand : Type :=
| DefaultHelpCommand (oid : nat)
| CustomHelpCommand (oid : nat).

#[global] Instance HelpCommand_eq_dec : EqDecision HelpCommand.
Proof. solve_decision. Defined.

Definition help_oid (h : HelpCommand) : nat :=
  match h with DefaultHelpCommand o | CustomHelpCommand o => o end.

(** What [import_module] returns: a module object, of which the client
    reads the [setup] and [teardown] attributes. *)
Record Extension : Type := mkExtension {
  ext_id : nat;
  ext_repr : string;
  has_setup : bool;
  has_teardown : bool
}.

Record CommandsClient : Type := mkClient {
  all_commands : Registry.t;
  cogs : gmap string Cog;
  extensions : gmap string Extension;
  help_command : HelpCommand
}.

Definition with_all_commands (self : CommandsClient) (d : Registry.t) : CommandsClient :=
  mkClient d (cogs self) (extensions self) (help_command self).

Definition with_extensions (self : CommandsClient) (e : gmap string Extension) : CommandsClient :=
  mkClient (all_commands self) (cogs self) e (help_command self).

(** [for alias in command.aliases: d[alias] = command] *)
Definition set_aliases {CF : CaseFold} (d : Registry.t) (command : Command) : Registry.t :=
  foldl (fun d alias => Registry.setitem d alias command) d (aliases command).

(** [for alias in command.aliases: d.pop(alias, None)] *)
Definition pop_aliases (d : Registry.t) (command : Command) : Registry.t :=
  foldl (fun d alias => snd (Registry.pop d alias)) d (aliases command).

(** The two statements by which [__init__] and [add_command] register one
    command: its name, then each alias. *)
Definition register {CF : CaseFold} (d : Registry.t) (command : Command) : Registry.t :=
  set_aliases (Registry.setitem d (name command) command) command.

Definition get_command {CF : CaseFold} (self : CommandsClient) (name : string) : result Command :=
  Registry.getitem (all_commands self) name.

Definition add_command {CF : CaseFold} (self : CommandsClient) (command : Command) : CommandsClient :=
  with_all_commands self (register (all_commands self) command).

Definition remove_command (self : CommandsClient) (name : string)
  : option Command * CommandsClient :=
  let '(command, d) := Registry.pop (all_commands self) name in
  match command with
  | Some c => (command, with_all_commands self (pop_aliases d c))
  | None => (command, with_all_commands self d)
  end.

(** The [commands] property: [list(set(self.all_commands.values()))]. *)
Definition commands (self : CommandsClient) : list Command :=
  remove_dups (Registry.values (all_commands self)).

(** ** Command discovery: [CommandsMeta.__new__] *)

Inductive AttrValue : Type :=
| AttrCommand (c : Command)
| AttrOther (tag : nat).

(** A class: its name and its [__dict__], in the order of the class body. *)
Record PyClass : Type := mkClass {
  cls_name : string;
  cls_dict : list (string * AttrValue)
}.

(** The inner loop: the commands among the values of one [__dict__] are
    appended to [commands]. *)
Definition collect_class (commands : list Command) (base : PyClass) : list Command :=
  foldl (fun commands value =>
           match value with
           | AttrCommand c => commands ++ [c]
           | AttrOther _ => commands
           end) commands (snd <$> cls_dict base).

(** [mro] is [self.__mro__], the most derived class first; the result is the
    list stored in [self._commands]. *)
Definition CommandsMeta_new (mro : list PyClass) : list Command :=
  foldl collect_class [] (reverse mro).

(** ** Construction: [CommandsClient.__init__] *)

(** The loop over [self._commands]. *)
Definition seed {CF : CaseFold} (d : Registry.t) (_commands : list Command) : Registry.t :=
  foldl register d _commands.

(** [_commands] is the list that the metaclass stored on the class,
    [help_impl] the command that [HelpCommandImpl(self)] builds and
    [next_oid] the identity that the next constructed object receives. *)
Definition init {CF : CaseFold} (_commands : list Command) (help_impl : Command) (next_oid : nat)
    (help_command : option HelpCommand) (case_insensitive : bool) : CommandsClient :=
  let all_commands :=
    if negb case_insensitive then Registry.empty false else Registry.empty true in
  let cogs : gmap string Cog := ∅ in
  let extensions : gmap string Extension := ∅ in
  let all_commands := seed all_commands _commands in
  let '(help_command, next_oid) :=
    match help_command with
    | None => (DefaultHelpCommand next_oid, S next_oid)
    | Some h => (h, next_oid)
    end in
  let self := mkClient all_commands cogs extensions (DefaultHelpCommand next_oid) in
  add_command self help_impl.

(** ** Messages, views and contexts *)

(** [message.content]: a [str], or an object of another class. *)
Inductive Content : Type :=
| ContentStr (s : string)
| ContentOther (tag : nat).

Record Message : Type := mkMessage {
  msg_id : nat;
  content : Content
}.

(** The state of a [StringView]: the text it has not consumed yet. *)
Record StringView : Type := mkStringView { view_rest : string }.

(** The value a command returns. *)
Inductive PyValue : Type :=
| PyNone
| PyObject (oid : nat).

(** [Context(command, invoked_with, view, message, client)]; the client is
    the one the pipeline runs on. *)
Record Context : Type := mkContext {
  ctx_command : option Command;
  ctx_invoked_with : string;
  ctx_view : StringView;
  ctx_message : Message
}.

(** What [get_prefix] returns: [Union[str, list[str]]]. *)
Inductive Prefixes : Type :=
| PrefixStr (p : string)
| PrefixList (ps : list string).

(** [command.cog or self] *)
Inductive Owner : Type :=
| OwnerCog (c : Cog)
| OwnerClient.

Definition cog_or_self (command : Command) : Owner :=
  match cog command with
  | Some c => OwnerCog c
  | None => OwnerClient
  end.

(** The arguments of [dispatch] after the context. *)
Inductive EventArgs : Type :=
| NoArgs
| OutputArg (output : PyValue)
| ErrorArg (e : exn).

(** What a run does that its caller can observe: the calls into the
    application and into the collaborators, and the events dispatched. *)
Inductive Action : Type :=
| CallGetPrefix (message : Message)
| CallGetNextWord (view : StringView)
| CallGetCommand (name : string)
| Dispatch (event : string) (ctx : Context) (args : EventArgs)
| CallBotCheck (ctx : Context)
| CallCanRun (ctx : Context)
| CallInvoke (ctx : Context)
| CallErrorHandler (command : Command) (owner : Owner) (ctx : Context) (e : exn)
| CallImportModule (name : string)
| CallSetup (extension : Extension).

Definition is_dispatch (a : Action) : bool :=
  match a with Dispatch _ _ _ => true | _ => false end.

Definition is_invoke (a : Action) : bool :=
  match a with CallInvoke _ => true | _ => false end.

Definition is_error_handler (a : Action) : bool :=
  match a with CallErrorHandler _ _ _ _ => true | _ => false end.

(** ** The monad of the pipeline *)

(** A computation runs on the client and on the actions recorded so far; it
    returns a value or raises. *)
Record World : Type := mkWorld {
  client : CommandsClient;
  trace : list Action
}.

Definition M (A : Type) : Type := World -> World * result A.

Definition ret {A} (a : A) : M A := fun w => (w, Return a).

Definition raise {A} (e : exn) : M A := fun w => (w, Raise e).

Definition bind {A B} (m : M A) (k : A -> M B) : M B :=
  fun w =>
    match m w with
    | (w', Return a) => k a w'
    | (w', Raise e) => (w', Raise e)
    end.

(** [try: body  except <catches> as e: handler e] *)
Definition try_except {A} (body : M A) (catches : exn -> bool) (handler : exn -> M A) : M A :=
  fun w =>
    match body w with
    | (w', Return a) => (w', Return a)
    | (w', Raise e) => if catches e then handler e w' else (w', Raise e)
    end.

Definition record (a : Action) : M unit :=
  fun w => (mkWorld (client w) (trace w ++ [a]), Return tt).

(** A call that may change the client. *)
Definition call {A} (a : Action) (f : CommandsClient -> CommandsClient * result A) : M A :=
  fun w =>
    let '(c, r) := f (client w) in
    (mkWorld c (trace w ++ [a]), r).

(** A call that only reads the client. *)
Definition query {A} (a : Action) (f : CommandsClient -> result A) : M A :=
  fun w => (mkWorld (client w) (trace w ++ [a]), f (client w)).

Declare Scope pipeline_scope.
Delimit Scope pipeline_scope with pipeline.
Notation "x <- m ;; k" := (bind m (fun x => k))
  (at level 100, m at next level, right associativity) : pipeline_scope.
Notation "m ;; k" := (bind m (fun _ => k))
  (at level 100, right associativity) : pipeline_scope.

(** ** Hooks *)

(** The methods that the application overrides and the collaborators whose
    code lies outside of the module.  Each one may raise; those that receive
    the client may change it.  [can_run] and [invoke] are the calls
    [context.can_run()] and [context.invoke()] as [process_commands] sees
    them: what they return and what leaves them; how [Context] and [Command]
    treat the checks and the callback of the command is in [context.py] and
    [command.py]. *)
Record Hooks : Type := mkHooks {
  get_prefix : Message -> CommandsClient -> CommandsClient * result Prefixes;
  get_next_word : StringView -> StringView * result string;
  bot_check : Context -> CommandsClient -> CommandsClient * result bool;
  can_run : Context -> CommandsClient -> CommandsClient * result bool;
  invoke : Context -> CommandsClient -> CommandsClient * result PyValue;
  _error_handler :
    Command -> Owner -> Context -> exn -> CommandsClient -> CommandsClient * result unit;
  import_module : string -> result Extension;
  setup : Extension -> CommandsClient -> CommandsClient * result unit
}.

(** [self.dispatch(event, context, ...)]: the event is handed to the host
    client, which runs the listeners later. *)
Definition dispatch (event : string) (ctx : Context) (args : EventArgs) : M unit :=
  record (Dispatch event ctx args).

(** ** Prefix resolution *)

(** The [for ... else] loop over the prefixes: [Some] of the sliced content
    at the [break], [None] when the [else] branch returns. *)
Fixpoint strip_prefix (prefixes : list string) (content : string) : option string :=
  match prefixes with
  | [] => None
  | prefix :: prefixes' =>
      if Str.startswith content prefix
      then Some (Str.slice_from (String.length prefix) content)
      else strip_prefix prefixes' content
  end.

(** [if isinstance(prefixes, str): prefixes = [prefixes]] *)
Definition normalize_prefixes (prefixes : Prefixes) : list string :=
  match prefixes with
  | PrefixStr p => [p]
  | PrefixList ps => ps
  end.

(** ** The pipeline: [process_commands] *)

Section Pipeline.
Context {CF : CaseFold}.
Variable h : Hooks.

Local Open Scope pipeline_scope.

(** [try: command_name = view.get_next_word()  except StopIteration: return] *)
Definition next_word (view : StringView) : M (option (StringView * string)) :=
  try_except
    (fun w =>
       let '(view', r) := get_next_word h view in
       (mkWorld (client w) (trace w ++ [CallGetNextWord view]),
        match r with
        | Return word => Return (Some (view', word))
        | Raise e => Raise e
        end))
    (fun e => bool_decide (e = StopIteration))
    (fun _ => ret None).

(** The [try] block that runs a located command. *)
Definition run_command (context : Context) : M PyValue :=
  dispatch "command" context NoArgs ;;
  passed <- call (CallBotCheck context) (bot_check h context) ;;
  if negb passed then raise (CheckError "the global check for the command failed") else
  passed <- call (CallCanRun context) (can_run h context) ;;
  if negb passed then raise (CheckError "the check(s) for the command failed") else
  output <- call (CallInvoke context) (invoke h context) ;;
  dispatch "after_command_invoke" context (OutputArg output) ;;
  ret output.

(** The [except Exception as e] clause. *)
Definition error_route (command : Command) (context : Context) (e : exn) : M PyValue :=
  call (CallErrorHandler command (cog_or_self command) context e)
       (_error_handler h command (cog_or_self command) context e) ;;
  dispatch "command_error" context (ErrorArg e) ;;
  ret PyNone.

Definition process_commands (message : Message) : M PyValue :=
  match content message with
  | ContentOther _ => ret PyNone
  | ContentStr content =>
      prefixes <- call (CallGetPrefix message) (get_prefix h message) ;;
      let prefixes := normalize_prefixes prefixes in
      match strip_prefix prefixes content with
      | None => ret PyNone
      | Some content =>
          if negb (Str.truthy content) then ret PyNone else
          let view := mkStringView content in
          word <- next_word view ;;
          match word with
          | None => ret PyNone
          | Some (view, command_name) =>
              found <- try_except
                         (command <- query (CallGetCommand command_name)
                                           (fun self => get_command self command_name) ;;
                          ret (Some command))
                         (fun e => match e with KeyError _ => true | _ => false end)
                         (fun _ => ret None) ;;
              match found with
              | None =>
                  let context := mkContext None command_name view message in
                  dispatch "command_error" context (ErrorArg (CommandNotFound command_name)) ;;
                  ret PyNone
              | Some command =>
                  let context := mkContext (Some command) command_name view message in
                  try_except (run_command context)
                             is_Exception
                             (error_route command context)
              end
          end
      end
  end.

(** ** Extensions: [load_extension] *)

Definition load_extension (name : string) : M unit :=
  extension <- query (CallImportModule name) (fun _ => import_module h name) ;;
  if negb (has_setup extension)
  then raise (MissingSetup ("'" ++ ext_repr extension ++ "' is missing a setup function")%string)
  else
    (fun w =>
       (mkWorld (with_extensions (client w) (<[name := extension]> (extensions (client w))))
                (trace w),
        Return tt)) ;;
    call (CallSetup extension) (setup h extension).

End Pipeline.

(** ** Auxiliary definitions *)

(** The keys that registering [c] in [d] writes. *)
Definition keys_of {CF : CaseFold} (d : Registry.t) (c : Command) : list string :=
  Registry.fold_key d <$> (name c :: aliases c).

(** [isinstance(value, Command)], with the command when it holds. *)
Definition command_of (value : AttrValue) : option Command :=
  match value with
  | AttrCommand c => Some c
  | AttrOther _ => None
  end.

(** The commands that the body of a class declares, in its order. *)
Definition class_commands (cls : PyClass) : list Command :=
  omap command_of (snd <$> cls_dict cls).

(** The world in which the registry is consulted: [get_prefix] left the
    client [c1], and three calls were recorded. *)
Definition lookup_world (w : World) (message : Message) (c1 : CommandsClient)
    (rest command_name : string) : World :=
  mkWorld c1 (trace w ++ [CallGetPrefix message;
                          CallGetNextWord (mkStringView rest);
                          CallGetCommand command_name]).

(** What [process_commands] does with the word that the tokenizer gave. *)
Definition after_word {CF : CaseFold} (h : Hooks) (message : Message)
    (word : option (StringView * string)) : M PyValue :=
  match word with
  | None => ret PyNone
  | Some (view, command_name) =>
      bind (try_except
              (bind (query (CallGetCommand command_name)
                           (fun self => get_command self command_name))
                    (fun command => ret (Some command)))
              (fun e => match e with KeyError _ => true | _ => false end)
              (fun _ => ret None))
           (fun found =>
              match found with
              | None =>
                  bind (dispatch "command_error"
                                 (mkContext None command_name view message)
                                 (ErrorArg (CommandNotFound command_name)))
                       (fun _ => ret PyNone)
              | Some command =>
                  try_except
                    (run_command h (mkContext (Some command) command_name view message))
                    is_Exception
                    (error_route h command (mkContext (Some command) command_name view message))
              end)
  end.

(** A computation that only adds to the trace. *)
Definition extends {A} (m : M A) : Prop :=
  ∀ w, trace w `prefix_of` trace (fst (m w)).

(** ** Concrete clients *)

Module Examples.

Definition help_impl : Command := mkCommand 0 "help" [] None.

Definition ping : Command := mkCommand 1 "ping" ["p"; "pong"] None.

Definition Ping : Command := mkCommand 2 "Ping" [] None.

Definition ping_a : Command := mkCommand 3 "ping" [] (Some (mkCog 10 "A")).

Definition ping_b : Command := mkCommand 4 "ping" [] (Some (mkCog 11 "B")).

(** A client that declares no command. *)
Definition fresh : CommandsClient := init [] help_impl 0 None false.

(** A client with case-sensitive names on which [ping] was declared. *)
Definition sensitive : CommandsClient := init [ping] help_impl 0 None false.

(** A client built with [case_insensitive=True], to which [Ping] is added. *)
Definition insensitive : CommandsClient :=
  add_command (init [] help_impl 0 None true) Ping.

(** Two cogs that each bring a command named ping. *)
Definition two_cogs : CommandsClient :=
  add_command (add_command fresh ping_a) ping_b.

End Examples.

(** ** Concrete classes *)

Module Classes.

Definition greet_base : Command := mkCommand 20 "greet" ["hi"] None.

Definition greet_derived : Command := mkCommand 21 "greet" [] None.

Definition object : PyClass := mkClass "object" [("__doc__", AttrOther 0)].

Definition CommandsClient_class : PyClass :=
  mkClass "CommandsClient" [("__init__", AttrOther 1); ("process_commands", AttrOther 2)].

Definition BaseBot : PyClass :=
  mkClass "BaseBot" [("__module__", AttrOther 3); ("greet", AttrCommand greet_base)].

Definition MyBot : PyClass :=
  mkClass "MyBot" [("__module__", AttrOther 3); ("greet", AttrCommand greet_derived)].





End Classes.

(** ** Hooks for concrete runs *)

Module Runs.

(** A tokenizer for the examples: blanks are skipped, the word ends at the
    next blank, and [StopIteration] is raised when no character is left. *)
Fixpoint take_word (s : string) : string * string :=
  match s with
  | EmptyString => (EmptyString, EmptyString)
  | String a s' =>
      if decide (a = " "%char) then (EmptyString, s')
      else let '(word, rest) := take_word s' in (String a word, rest)
  end.

Fixpoint skip_blanks (s : string) : string :=
  match s with
  | EmptyString => EmptyString
  | String a s' => if decide (a = " "%char) then skip_blanks s' else s
  end.

Definition first_word (view : StringView) : StringView * result string :=
  match skip_blanks (view_rest view) with
  | EmptyString => (mkStringView EmptyString, Raise StopIteration)
  | s => let '(word, rest) := take_word s in (mkStringView rest, Return word)
  end.

(** An application with the prefixes ! and ?, whose checks pass and whose
    commands return an object; no module can be imported but noisy, which
    has no [setup]. *)
Definition hooks : Hooks :=
  mkHooks (fun _ self => (self, Return (PrefixList ["!"; "?"])))
          first_word
          (fun _ self => (self, Return true))
          (fun _ self => (self, Return true))
          (fun _ self => (self, Return (PyObject 7)))
          (fun _ _ _ _ self => (self, Return tt))
          (fun name => if decide (name = "noisy")
                       then Return (mkExtension 5 "<module 'noisy'>" false false)
                       else Raise (OtherException 404))
          (fun _ self => (self, Return tt)).

(** The same application with a global check that fails. *)
Definition guarded : Hooks :=
  mkHooks (get_prefix hooks) (get_next_word hooks)
          (fun _ self => (self, Return false))
          (can_run hooks) (invoke hooks) (_error_handler hooks)
          (import_module hooks) (setup hooks).

(** The same application, in which [context.invoke()] raises [SystemExit]. *)
Definition exiting : Hooks :=
  mkHooks (get_prefix hooks) (get_next_word hooks) (bot_check hooks) (can_run hooks)
          (fun _ self => (self, Raise (OtherBaseException 0)))
          (_error_handler hooks) (import_module hooks) (setup hooks).

Definition start : World := mkWorld Examples.sensitive [].

Definition text (s : string) : Message := mkMessage 1 (ContentStr s).

Definition ping_context : Context :=
  mkContext (Some Examples.ping) "ping" (mkStringView "") (text "!ping").

End Runs.

(** ** Cogs and the rest of the extension API *)

Definition with_cogs (self : CommandsClient) (c : gmap string Cog) : CommandsClient :=
  mkClient (all_commands self) c (extensions self) (help_command self).

(** [self.cogs[name]] *)
Definition get_cog (self : CommandsClient) (name : string) : result Cog :=
  match cogs self !! name with
  | Some cog => Return cog
  | None => Raise (KeyError name)
  end.

(** [self.extensions[name]] *)
Definition get_extension (self : CommandsClient) (name : string) : result Extension :=
  match extensions self !! name with
  | Some extension => Return extension
  | None => Raise (KeyError name)
  end.

(** [remove_cog]; [_uninject] is the method of [Cog], whose code is in
    [cog.py]. *)
Definition remove_cog (_uninject : Cog → CommandsClient → CommandsClient * result unit)
    (self : CommandsClient) (cog_name : string) : CommandsClient * result Cog :=
  match cogs self !! cog_name with
  | None => (self, Raise (KeyError cog_name))
  | Some cog =>
      let self := with_cogs self (delete cog_name (cogs self)) in
      match _uninject cog self with
      | (self, Return _) => (self, Return cog)
      | (self, Raise e) => (self, Raise e)
      end
  end.

(** [unload_extension].  [modules] holds the keys of [sys.modules] and
    [teardown] runs the function of that name of a module that has one. *)
Definition unload_extension
    (teardown : Extension → CommandsClient → CommandsClient * result unit)
    (name : string) (modules : gset string) (self : CommandsClient)
  : gset string * CommandsClient * result unit :=
  match extensions self !! name with
  | None => (modules, self, Raise (KeyError name))
  | Some extension =>
      let self := with_extensions self (delete name (extensions self)) in
      if decide (name ∈ modules) then
        let modules := modules ∖ {[name]} in
        if has_teardown extension
        then let '(self, r) := teardown extension self in (modules, self, r)
        else (modules, self, Return tt)
      else (modules, self, Raise (KeyError name))
  end.

(** What [import_module] adds to the keys of [sys.modules]: the name of the
    module, when the import succeeds (the packages that contain it are left
    out). *)
Definition imported (h : Hooks) (name : string) (modules : gset string) : gset string :=
  match import_module h name with
  | Return _ => {[name]} ∪ modules
  | Raise _ => modules
  end.

(** [reload_extension]: [unload_extension], then [load_extension]. *)
Definition reload_extension (h : Hooks)
    (teardown : Extension → CommandsClient → CommandsClient * result unit)
    (name : string) (modules : gset string) (w : World)
  : gset string * World * result unit :=
  match unload_extension teardown name modules (client w) with
  | (modules, self, Raise e) => (modules, mkWorld self (trace w), Raise e)
  | (modules, self, Return _) =>
      let '(w', r) := load_extension h name (mkWorld self (trace w)) in
      (imported h name modules, w', r)
  end.

(** ** The methods an application may leave as they are *)

(** [get_prefix] of [CommandsClient]: [raise NotImplementedError]. *)
Definition default_get_prefix (message : Message) (self : CommandsClient)
  : CommandsClient * result Prefixes :=
  (self, Raise NotImplementedError).

(** [bot_check] of [CommandsClient]: [return True]. *)
Definition default_bot_check (context : Context) (self : CommandsClient)
  : CommandsClient * result bool :=
  (self, Return true).

(** ** Invariants *)

(** A command whose name and aliases are ASCII text. *)
Definition ascii_command (c : Command) : bool :=
  Str.is_ascii (name c) && forallb Str.is_ascii (aliases c).

(** Every key of the registry is a key that its command registers: the
    name or an alias, folded when the registry folds. *)
Definition well_keyed {CF : CaseFold} (d : Registry.t) : Prop :=
  ∀ k c, Registry.entries d !! k = Some c → k ∈ keys_of d c.

(** A computation that leaves the client as it found it. *)
Definition keeps_client {A} (m : M A) : Prop :=
  ∀ w, client (fst (m w)) = client w.

(** Hooks that do not change the client they are given. *)
Definition hooks_keep_client (h : Hooks) : Prop :=
  (∀ message self, fst (get_prefix h message self) = self) ∧
  (∀ context self, fst (bot_check h context self) = self) ∧
  (∀ context self, fst (can_run h context self) = self) ∧
  (∀ context self, fst (invoke h context self) = self) ∧
  (∀ command owner context e self,
      fst (_error_handler h command owner context e self) = self).

(** ** More applications for concrete runs *)

Module Apps.

(** An application that overrides neither [get_prefix] nor [bot_check]. *)
Definition unprefixed : Hooks :=
  mkHooks default_get_prefix (get_next_word Runs.hooks) default_bot_check
          (can_run Runs.hooks) (invoke Runs.hooks) (_error_handler Runs.hooks)
          (import_module Runs.hooks) (setup Runs.hooks).

(** An application whose commands raise and whose error handlers raise in
    their turn. *)
Definition failing : Hooks :=
  mkHooks (get_prefix Runs.hooks) (get_next_word Runs.hooks) (bot_check Runs.hooks)
          (can_run Runs.hooks)
          (fun _ self => (self, Raise (OtherException 1)))
          (fun _ _ _ _ self => (self, Raise (OtherException 2)))
          (import_module Runs.hooks) (setup Runs.hooks).

(** An application whose global check raises [SystemExit]. *)
Definition stopping : Hooks :=
  mkHooks (get_prefix Runs.hooks) (get_next_word Runs.hooks)
          (fun _ self => (self, Raise (OtherBaseException 0)))
          (can_run Runs.hooks) (invoke Runs.hooks) (_error_handler Runs.hooks)
          (import_module Runs.hooks) (setup Runs.hooks).

(** An application whose tokenizer raises an error of its own. *)
Definition broken_tokenizer : Hooks :=
  mkHooks (get_prefix Runs.hooks)
          (fun view => (view, Raise (OtherException 3)))
          (bot_check Runs.hooks) (can_run Runs.hooks) (invoke Runs.hooks)
          (_error_handler Runs.hooks) (import_module Runs.hooks) (setup Runs.hooks).

(** The module greeter, with a [setup] that adds a command and a
    [teardown] that removes it. *)
Definition greeter : Extension := mkExtension 6 "<module 'greeter'>" true true.

Definition plugins : Hooks :=
  mkHooks (get_prefix Runs.hooks) (get_next_word Runs.hooks) (bot_check Runs.hooks)
          (can_run Runs.hooks) (invoke Runs.hooks) (_error_handler Runs.hooks)
          (fun name => if decide (name = "greeter") then Return greeter
                       else Raise (OtherException 404))
          (fun _ self => (add_command self Classes.greet_base, Return tt)).

Definition teardown (extension : Extension) (self : CommandsClient)
  : CommandsClient * result unit :=
  (snd (remove_command self "greet"), Return tt).

(** The world after greeter was loaded. *)
Definition loaded : World := fst (load_extension plugins "greeter" Runs.start).

(** The client after greeter was unloaded again. *)
Definition unloaded : CommandsClient :=
  snd (remove_command
         (with_extensions (client loaded) (delete "greeter" (extensions (client loaded))))
         "greet").

(** A client with the cog A, and an [_uninject] that removes the command
    of the cog. *)
Definition cog_a : Cog := mkCog 10 "A".

Definition with_cog : CommandsClient :=
  with_cogs (add_command Examples.fresh Examples.ping_a) {["A" := cog_a]}.

Definition uninject (cog : Cog) (self : CommandsClient) : CommandsClient * result unit :=
  (snd (remove_command self "ping"), Return tt).

End Apps.

(** * Properties *)

(** ** The registry *)

Section RegistryFacts.
Context {CF : CaseFold}.
Implicit Types (d : Registry.t) (c : Command) (k : string).

Lemma lower_char_idem a : Str.lower_char (Str.lower_char a) = Str.lower_char a.
Proof.
  destruct a as [[] [] [] [] [] [] [] []]; reflexivity.
Qed.

Lemma lower_idem k : Str.lower (Str.lower k) = Str.lower k.
Proof.
  induction k as [|a k IH]; simpl; [done|].
  by rewrite lower_char_idem, IH.
Qed.

Lemma fold_key_setitem d k c k' :
  Registry.fold_key (Registry.setitem d k c) k' = Registry.fold_key d k'.
Proof. done. Qed.

Lemma setitem_all_spec (l : list string) d c :
  let d' := foldl (fun d alias => Registry.setitem d alias c) d l in
  Registry.case_insensitive d' = Registry.case_insensitive d ∧
  ∀ k, Registry.entries d' !! k =
       if decide (k ∈ Registry.fold_key d <$> l) then Some c else Registry.entries d !! k.
Proof.
  revert d. induction l as [|a l IH]; intros d; simpl.
  - by split.
  - destruct (IH (Registry.setitem d a c)) as [Hci Hlk]. split; [done|].
    intros k. rewrite Hlk. simpl.
    assert (Hf : Registry.fold_key (Registry.setitem d a c) <$> l = Registry.fold_key d <$> l)
      by done.
    rewrite Hf. repeat case_decide; try done.
    + exfalso. set_solver.
    + rewrite lookup_insert. case_decide; [done|]. exfalso. set_solver.
    + rewrite lookup_insert. case_decide; [|done]. exfalso. set_solver.
Qed.

Lemma register_case_insensitive d c :
  Registry.case_insensitive (register d c) = Registry.case_insensitive d.
Proof.
  unfold register, set_aliases.
  by destruct (setitem_all_spec (aliases c) (Registry.setitem d (name c) c) c) as [-> _].
Qed.

Lemma fold_key_register d c k :
  Registry.fold_key (register d c) k = Registry.fold_key d k.
Proof. unfold Registry.fold_key. by rewrite register_case_insensitive. Qed.

(** Registration is last write wins: the keys of [c] map to [c], every
    other key keeps its command. *)
Lemma register_lookup d c k :
  Registry.entries (register d c) !! k =
  if decide (k ∈ keys_of d c) then Some c else Registry.entries d !! k.
Proof.
  unfold register, set_aliases, keys_of.
  destruct (setitem_all_spec (aliases c) (Registry.setitem d (name c) c) c) as [_ ->].
  simpl. rewrite lookup_insert.
  assert (Hf : Registry.fold_key (Registry.setitem d (name c) c) <$> aliases c
               = Registry.fold_key d <$> aliases c) by done.
  rewrite Hf. repeat case_decide; try done; exfalso; set_solver.
Qed.

Lemma pop_all_spec (l : list string) d :
  let d' := foldl (fun d alias => snd (Registry.pop d alias)) d l in
  Registry.case_insensitive d' = Registry.case_insensitive d ∧
  ∀ k, Registry.entries d' !! k = if decide (k ∈ l) then None else Registry.entries d !! k.
Proof.
  revert d. induction l as [|a l IH]; intros d; simpl.
  - by split.
  - destruct (IH (Registry.pop d a).2) as [Hci Hlk]. split; [done|].
    intros k. rewrite Hlk. simpl. rewrite lookup_delete.
    repeat case_decide; try done; exfalso; set_solver.
Qed.

Lemma pop_aliases_lookup d c k :
  Registry.entries (pop_aliases d c) !! k =
  if decide (k ∈ aliases c) then None else Registry.entries d !! k.
Proof. unfold pop_aliases. by destruct (pop_all_spec (aliases c) d) as [_ ->]. Qed.

Lemma elem_of_values d c :
  c ∈ Registry.values d ↔ ∃ k, Registry.entries d !! k = Some c.
Proof.
  unfold Registry.values. rewrite list_elem_of_fmap. split.
  - intros [[k c'] [Heq Hin]]. simpl in Heq. subst c'. exists k.
    by apply elem_of_map_to_list in Hin.
  - intros [k Hk]. exists (k, c). split; [done|]. by apply elem_of_map_to_list.
Qed.

Lemma elem_of_commands (self : CommandsClient) c :
  c ∈ commands self ↔ ∃ k, Registry.entries (all_commands self) !! k = Some c.
Proof. unfold commands. by rewrite elem_of_remove_dups, elem_of_values. Qed.

Lemma get_command_Return (self : CommandsClient) k c :
  get_command self k = Return c ↔
  Registry.entries (all_commands self) !! Registry.fold_key (all_commands self) k = Some c.
Proof.
  unfold get_command, Registry.getitem.
  destruct (Registry.entries _ !! _); split; intros; simplify_eq; done.
Qed.

End RegistryFacts.

(** ** Removing a command *)

(** Removing by a key that maps to [c] deletes that key and every alias of
    [c]; no other key is touched. *)
Lemma remove_command_lookup (self : CommandsClient) (key : string) (c : Command) (k : string) :
  Registry.entries (all_commands self) !! key = Some c →
  fst (remove_command self key) = Some c ∧
  Registry.entries (all_commands (snd (remove_command self key))) !! k =
    if decide (k = key ∨ k ∈ aliases c) then None else Registry.entries (all_commands self) !! k.
Proof.
  intros Hkey. unfold remove_command, Registry.pop. rewrite Hkey. simpl. split; [done|].
  rewrite pop_aliases_lookup. simpl. rewrite lookup_delete.
  repeat case_decide; try done; exfalso; naive_solver.
Qed.

(** In a plain [dict], the name of a command survives the removal by one of
    its aliases as soon as the name is not itself an alias. *)
Lemma remove_command_alias_leaves_name {CF : CaseFold} (self : CommandsClient) (c : Command) (a : string) :
  Registry.case_insensitive (all_commands self) = false →
  a ∈ aliases c →
  name c ∉ aliases c →
  get_command self a = Return c →
  get_command self (name c) = Return c →
  get_command (snd (remove_command self a)) (name c) = Return c.
Proof.
  intros Hci Ha Hname Hget_a Hget_n.
  apply get_command_Return in Hget_a, Hget_n. apply get_command_Return.
  unfold Registry.fold_key in *. rewrite Hci in Hget_a, Hget_n.
  destruct (remove_command_lookup self a c (name c) Hget_a) as [_ Hlk].
  assert (Hci' : Registry.case_insensitive (all_commands (snd (remove_command self a))) = false).
  { unfold remove_command, Registry.pop. rewrite Hget_a. simpl.
    unfold pop_aliases. by destruct (pop_all_spec (aliases c)
      (Registry.mk (Registry.case_insensitive (all_commands self))
                   (delete a (Registry.entries (all_commands self))))) as [-> _]. }
  rewrite Hci', Hlk. case_decide as Hk; [|done].
  destruct Hk as [Heq|Hk]; [|done]. rewrite <- Heq in Ha. done.
Qed.

(** C1. Evaluation at a failing input: [ping] has the aliases p and pong;
    [remove_command] on the alias p returns the command and deletes both
    aliases, but the canonical name still resolves to the command, where the
    claim says that the lookup on the name fails with not-found. *)
Theorem remove_command_by_alias_keeps_name :
  get_command Examples.sensitive "ping" = Return Examples.ping ∧
  get_command Examples.sensitive "p" = Return Examples.ping ∧
  fst (remove_command Examples.sensitive "p") = Some Examples.ping ∧
  get_command (snd (remove_command Examples.sensitive "p")) "p" = Raise (KeyError "p") ∧
  get_command (snd (remove_command Examples.sensitive "p")) "pong" = Raise (KeyError "pong") ∧
  get_command (snd (remove_command Examples.sensitive "p")) "ping" = Return Examples.ping.
Proof. repeat split; vm_compute; reflexivity. Qed.

(** ** Case folding *)

(** In a [CaseInsensitiveDict] a command is found under every spelling of
    its name. *)
Lemma case_insensitive_get_command {CF : CaseFold} (self : CommandsClient) (c : Command) (k : string) :
  Registry.case_insensitive (all_commands self) = true →
  casefold k = casefold (name c) →
  get_command (add_command self c) k = Return c.
Proof.
  intros Hci Hk. apply get_command_Return. simpl.
  rewrite fold_key_register, register_lookup.
  unfold keys_of, Registry.fold_key. rewrite Hci, Hk.
  case_decide as Hin; [done|]. exfalso. apply Hin. set_solver.
Qed.

(** C2. Evaluation at a failing input: in a client built with
    [case_insensitive=True], [Ping] is found as PING, and [del] folds its
    key, but [remove_command], which calls [pop], finds nothing under Ping or
    PING and leaves the entry in place; the claim says that [remove_command]
    with any spelling of the name deletes the entry. *)
Theorem case_insensitive_remove_command_keeps_entry :
  get_command Examples.insensitive "PING" = Return Examples.Ping ∧
  Registry.contains (all_commands Examples.insensitive) "pInG" = true ∧
  (∃ d, Registry.delitem (all_commands Examples.insensitive) "PING" = Return d ∧
        Registry.getitem d "Ping" = Raise (KeyError "ping")) ∧
  fst (remove_command Examples.insensitive "Ping") = None ∧
  get_command (snd (remove_command Examples.insensitive "Ping")) "Ping" = Return Examples.Ping ∧
  fst (remove_command Examples.insensitive "PING") = None ∧
  get_command (snd (remove_command Examples.insensitive "PING")) "PING" = Return Examples.Ping.
Proof.
  repeat split; try (vm_compute; reflexivity).
  eexists. split; vm_compute; reflexivity.
Qed.

(** ** Two commands under one name *)

(** C3, as stated, fails: after two commands named ping, without aliases,
    were added one after the other, the first one is no longer among
    [commands]. *)
Lemma same_name_first_not_listed :
  name Examples.ping_a = name Examples.ping_b ∧
  Examples.ping_a ≠ Examples.ping_b ∧
  get_command Examples.two_cogs "ping" = Return Examples.ping_b ∧
  Examples.ping_b ∈ commands Examples.two_cogs ∧
  Examples.ping_a ∉ commands Examples.two_cogs.
Proof.
  split; [reflexivity|]. split; [discriminate|]. split; [vm_compute; reflexivity|].
  split.
  - apply elem_of_commands. exists "ping". vm_compute. reflexivity.
  - assert (Hc : commands Examples.two_cogs = [Examples.help_impl; Examples.ping_b])
      by (vm_compute; reflexivity).
    rewrite Hc. intros Hin. apply list_elem_of_In in Hin.
    destruct Hin as [H|[H|[]]]; discriminate H.
Qed.

(** C3, amended. The second registration wins for the shared name and is
    listed; the first command is listed exactly when a key that the second
    registration did not write still maps to it: one of its own keys, or a
    key that it held before. *)
Theorem same_name_second_wins {CF : CaseFold} (self : CommandsClient) (c1 c2 : Command) :
  name c1 = name c2 →
  c1 ≠ c2 →
  get_command (add_command (add_command self c1) c2) (name c1) = Return c2 ∧
  c2 ∈ commands (add_command (add_command self c1) c2) ∧
  (c1 ∈ commands (add_command (add_command self c1) c2) ↔
   ∃ k, (k ∉ keys_of (all_commands self) c2) ∧
        (k ∈ keys_of (all_commands self) c1 ∨
         Registry.entries (all_commands self) !! k = Some c1)).
Proof.
  intros Hname Hne.
  assert (Hkeys : ∀ c, keys_of (register (all_commands self) c1) c = keys_of (all_commands self) c).
  { intros c. unfold keys_of. apply list_fmap_ext. intros _ k _. apply fold_key_register. }
  assert (Hlk : ∀ k, Registry.entries (all_commands (add_command (add_command self c1) c2)) !! k
                 = if decide (k ∈ keys_of (all_commands self) c2) then Some c2
                   else if decide (k ∈ keys_of (all_commands self) c1) then Some c1
                   else Registry.entries (all_commands self) !! k).
  { intros k. simpl. rewrite register_lookup, Hkeys, register_lookup. done. }
  assert (Hin2 : Registry.fold_key (all_commands self) (name c2) ∈ keys_of (all_commands self) c2).
  { unfold keys_of. set_solver. }
  split; [|split].
  - apply get_command_Return. rewrite Hlk. simpl. rewrite !fold_key_register, Hname.
    by rewrite decide_True.
  - apply elem_of_commands. eexists. rewrite Hlk. by rewrite decide_True.
  - rewrite elem_of_commands. split.
    + intros [k Hk]. rewrite Hlk in Hk. exists k.
      repeat case_decide; simplify_eq; auto.
    + intros (k & Hk2 & Hk1). exists k. rewrite Hlk.
      rewrite decide_False by done. destruct Hk1 as [Hk1|Hk1].
      * by rewrite decide_True.
      * by case_decide.
Qed.

Lemma same_name_second_wins_witness :
  name Examples.ping = name Examples.ping_b ∧
  Examples.ping ≠ Examples.ping_b ∧
  get_command (add_command (add_command Examples.fresh Examples.ping) Examples.ping_b)
              (name Examples.ping) = Return Examples.ping_b ∧
  Examples.ping_b ∈ commands (add_command (add_command Examples.fresh Examples.ping)
                                          Examples.ping_b) ∧
  (Examples.ping ∈ commands (add_command (add_command Examples.fresh Examples.ping)
                                         Examples.ping_b) ↔
   ∃ k, (k ∉ keys_of (all_commands Examples.fresh) Examples.ping_b) ∧
        (k ∈ keys_of (all_commands Examples.fresh) Examples.ping ∨
         Registry.entries (all_commands Examples.fresh) !! k = Some Examples.ping)).
Proof.
  split; [reflexivity|]. split; [discriminate|].
  apply (same_name_second_wins Examples.fresh Examples.ping Examples.ping_b);
    [reflexivity | discriminate].
Defined.

(** ** The pipeline up to the lookup *)

Section ReachesLookup.
Context {CF : CaseFold}.
Variables (h : Hooks) (w : World) (message : Message).
Variables (body : string) (prefixes : Prefixes) (c1 : CommandsClient).
Variables (rest : string) (view : StringView) (command_name : string).

Hypothesis Hcontent : content message = ContentStr body.
Hypothesis Hprefix : get_prefix h message (client w) = (c1, Return prefixes).
Hypothesis Hstrip : strip_prefix (normalize_prefixes prefixes) body = Some rest.
Hypothesis Hrest : Str.truthy rest = true.
Hypothesis Hword : get_next_word h (mkStringView rest) = (view, Return command_name).

(** A hit: the rest of the run is the [try] statement around the command. *)
Lemma process_commands_found (command : Command) :
  get_command c1 command_name = Return command →
  process_commands h message w =
  try_except (run_command h (mkContext (Some command) command_name view message))
             is_Exception
             (error_route h command (mkContext (Some command) command_name view message))
             (lookup_world w message c1 rest command_name).
Proof.
  intros Hget. unfold process_commands. rewrite Hcontent.
  unfold bind at 1. unfold call at 1. rewrite Hprefix. simpl.
  rewrite Hstrip, Hrest. simpl.
  unfold bind at 1. unfold next_word, try_except at 1. rewrite Hword. simpl.
  unfold bind at 1. unfold try_except at 1, bind at 1, query. simpl.
  rewrite Hget. simpl. unfold lookup_world. by rewrite <- !app_assoc.
Qed.

(** A miss: [KeyError] is caught and the error is dispatched. *)
Lemma process_commands_not_found :
  Registry.get (all_commands c1) command_name = None →
  process_commands h message w =
  (mkWorld c1 (trace (lookup_world w message c1 rest command_name) ++
               [Dispatch "command_error" (mkContext None command_name view message)
                         (ErrorArg (CommandNotFound command_name))]),
   Return PyNone).
Proof.
  intros Hget. unfold process_commands. rewrite Hcontent.
  unfold bind at 1. unfold call at 1. rewrite Hprefix. simpl.
  rewrite Hstrip, Hrest. simpl.
  unfold bind at 1. unfold next_word, try_except at 1. rewrite Hword. simpl.
  unfold bind at 1. unfold try_except at 1, bind at 1, query. simpl.
  unfold get_command, Registry.getitem. unfold Registry.get in Hget. rewrite Hget. simpl.
  unfold bind, dispatch, record, ret. simpl. by rewrite <- !app_assoc.
Qed.

End ReachesLookup.

(** ** Messages that are not text *)

(** C10. When the content of the message is not a string, [process_commands]
    returns [None] at once: the client is the one it was given, and nothing
    was called, looked up or dispatched. *)
Theorem process_commands_ignores_non_text {CF : CaseFold} (h : Hooks) (w : World) (message : Message)
    (tag : nat) :
  content message = ContentOther tag →
  process_commands h message w = (w, Return PyNone).
Proof. intros Hcontent. unfold process_commands. by rewrite Hcontent. Qed.

Lemma process_commands_ignores_non_text_witness :
  content (mkMessage 2 (ContentOther 0)) = ContentOther 0 ∧
  process_commands Runs.hooks (mkMessage 2 (ContentOther 0)) Runs.start
  = (Runs.start, Return PyNone).
Proof.
  split; [reflexivity|].
  apply (process_commands_ignores_non_text Runs.hooks Runs.start _ 0). reflexivity.
Defined.

(** ** Unknown commands *)

(** C5. When the word that the tokenizer extracted is no key of the
    registry, [process_commands] dispatches one command_error event, with a
    context bound to no command and a [CommandNotFound] error, calls neither
    an error handler nor a command, and returns [None]. *)
Theorem unknown_command_dispatches_not_found {CF : CaseFold}
    (h : Hooks) (w : World) (message : Message) (body : string) (prefixes : Prefixes)
    (c1 : CommandsClient) (rest : string) (view : StringView) (command_name : string) :
  content message = ContentStr body →
  get_prefix h message (client w) = (c1, Return prefixes) →
  strip_prefix (normalize_prefixes prefixes) body = Some rest →
  Str.truthy rest = true →
  get_next_word h (mkStringView rest) = (view, Return command_name) →
  Registry.get (all_commands c1) command_name = None →
  process_commands h message w =
  (mkWorld c1 (trace w ++ [CallGetPrefix message;
                           CallGetNextWord (mkStringView rest);
                           CallGetCommand command_name;
                           Dispatch "command_error"
                                    (mkContext None command_name view message)
                                    (ErrorArg (CommandNotFound command_name))]),
   Return PyNone).
Proof.
  intros Hcontent Hprefix Hstrip Hrest Hword Hget.
  rewrite (process_commands_not_found h w message body prefixes c1 rest view command_name)
    by done.
  unfold lookup_world. simpl. by rewrite <- app_assoc.
Qed.

Lemma unknown_command_dispatches_not_found_witness :
  process_commands Runs.hooks (Runs.text "?dance now") Runs.start =
  (mkWorld Examples.sensitive
           [CallGetPrefix (Runs.text "?dance now");
            CallGetNextWord (mkStringView "dance now");
            CallGetCommand "dance";
            Dispatch "command_error"
                     (mkContext None "dance" (mkStringView "now") (Runs.text "?dance now"))
                     (ErrorArg (CommandNotFound "dance"))],
   Return PyNone).
Proof.
  apply (unknown_command_dispatches_not_found Runs.hooks Runs.start (Runs.text "?dance now")
           "?dance now" (PrefixList ["!"; "?"]) Examples.sensitive "dance now"
           (mkStringView "now") "dance");
    vm_compute; reflexivity.
Defined.

(** ** Extensions *)

(** C7. When the imported module has no [setup], [load_extension] raises
    [MissingSetup]; the client, and with it the extension table, is the one
    before the call, and [setup] was not called. *)
Theorem load_extension_missing_setup (h : Hooks) (w : World) (name : string)
    (extension : Extension) :
  import_module h name = Return extension →
  has_setup extension = false →
  load_extension h name w =
  (mkWorld (client w) (trace w ++ [CallImportModule name]),
   Raise (MissingSetup ("'" +:+ ext_repr extension +:+ "' is missing a setup function"))) ∧
  extensions (client (fst (load_extension h name w))) = extensions (client w).
Proof.
  intros Himport Hsetup. unfold load_extension, bind, query. simpl.
  rewrite Himport, Hsetup. simpl. done.
Qed.

Lemma load_extension_missing_setup_witness :
  load_extension Runs.hooks "noisy" Runs.start =
  (mkWorld (client Runs.start) (trace Runs.start ++ [CallImportModule "noisy"]),
   Raise (MissingSetup "'<module 'noisy'>' is missing a setup function")) ∧
  extensions (client (fst (load_extension Runs.hooks "noisy" Runs.start)))
  = extensions (client Runs.start).
Proof.
  apply (load_extension_missing_setup Runs.hooks Runs.start "noisy"
           (mkExtension 5 "<module 'noisy'>" false false)); reflexivity.
Defined.

(** ** Errors while a command runs *)

Section RunCommand.
Variables (h : Hooks) (context : Context) (w1 : World).

Lemma run_command_bot_check_raises c2 e :
  bot_check h context (client w1) = (c2, Raise e) →
  run_command h context w1 =
  (mkWorld c2 (trace w1 ++ [Dispatch "command" context NoArgs; CallBotCheck context]),
   Raise e).
Proof.
  intros Hcheck. unfold run_command, bind, dispatch, record, call. simpl.
  rewrite Hcheck. by rewrite <- app_assoc.
Qed.

Lemma run_command_bot_check_fails c2 :
  bot_check h context (client w1) = (c2, Return false) →
  run_command h context w1 =
  (mkWorld c2 (trace w1 ++ [Dispatch "command" context NoArgs; CallBotCheck context]),
   Raise (CheckError "the global check for the command failed")).
Proof.
  intros Hcheck. unfold run_command, bind, dispatch, record, call. simpl.
  rewrite Hcheck. simpl. by rewrite <- app_assoc.
Qed.

Lemma run_command_can_run_raises c2 c3 e :
  bot_check h context (client w1) = (c2, Return true) →
  can_run h context c2 = (c3, Raise e) →
  run_command h context w1 =
  (mkWorld c3 (trace w1 ++ [Dispatch "command" context NoArgs; CallBotCheck context;
                            CallCanRun context]),
   Raise e).
Proof.
  intros Hcheck Hrun. unfold run_command, bind, dispatch, record, call. simpl.
  rewrite Hcheck. simpl. rewrite Hrun. by rewrite <- !app_assoc.
Qed.

Lemma run_command_can_run_fails c2 c3 :
  bot_check h context (client w1) = (c2, Return true) →
  can_run h context c2 = (c3, Return false) →
  run_command h context w1 =
  (mkWorld c3 (trace w1 ++ [Dispatch "command" context NoArgs; CallBotCheck context;
                            CallCanRun context]),
   Raise (CheckError "the check(s) for the command failed")).
Proof.
  intros Hcheck Hrun. unfold run_command, bind, dispatch, record, call. simpl.
  rewrite Hcheck. simpl. rewrite Hrun. simpl. by rewrite <- !app_assoc.
Qed.

Lemma run_command_invoke_raises c2 c3 c4 e :
  bot_check h context (client w1) = (c2, Return true) →
  can_run h context c2 = (c3, Return true) →
  invoke h context c3 = (c4, Raise e) →
  run_command h context w1 =
  (mkWorld c4 (trace w1 ++ [Dispatch "command" context NoArgs; CallBotCheck context;
                            CallCanRun context; CallInvoke context]),
   Raise e).
Proof.
  intros Hcheck Hrun Hinvoke. unfold run_command, bind, dispatch, record, call. simpl.
  rewrite Hcheck. simpl. rewrite Hrun. simpl. rewrite Hinvoke. by rewrite <- !app_assoc.
Qed.

(** The [except Exception] clause, when the error handler of the command
    returns, and when it raises in its turn. *)
Lemma error_route_returns command e w2 c3 :
  _error_handler h command (cog_or_self command) context e (client w2) = (c3, Return tt) →
  error_route h command context e w2 =
  (mkWorld c3 (trace w2 ++ [CallErrorHandler command (cog_or_self command) context e;
                            Dispatch "command_error" context (ErrorArg e)]),
   Return PyNone).
Proof.
  intros Hhandler. unfold error_route, bind, dispatch, record, call, ret. simpl.
  rewrite Hhandler. simpl. by rewrite <- app_assoc.
Qed.

Lemma error_route_raises command e w2 c3 e' :
  _error_handler h command (cog_or_self command) context e (client w2) = (c3, Raise e') →
  error_route h command context e w2 =
  (mkWorld c3 (trace w2 ++ [CallErrorHandler command (cog_or_self command) context e]),
   Raise e').
Proof.
  intros Hhandler. unfold error_route, bind, call. simpl. by rewrite Hhandler.
Qed.

End RunCommand.

(** C4, as stated, fails: the global check of [Apps.stopping] raises
    [SystemExit], which is no instance of [Exception]; the [except] clause
    lets it pass, so that [process_commands] raises it to its caller, having
    called no error handler and dispatched no command_error event. *)
Lemma system_exit_in_global_check_propagates :
  process_commands Apps.stopping (Runs.text "!ping") Runs.start =
  (mkWorld Examples.sensitive
           [CallGetPrefix (Runs.text "!ping");
            CallGetNextWord (mkStringView "ping");
            CallGetCommand "ping";
            Dispatch "command" Runs.ping_context NoArgs;
            CallBotCheck Runs.ping_context],
   Raise (OtherBaseException 0)).
Proof. vm_compute. reflexivity. Qed.

(** The same holds of a [SystemExit] that leaves [context.invoke()]. *)
Lemma system_exit_leaves_process_commands :
  process_commands Runs.exiting (Runs.text "!ping") Runs.start =
  (mkWorld Examples.sensitive
           [CallGetPrefix (Runs.text "!ping");
            CallGetNextWord (mkStringView "ping");
            CallGetCommand "ping";
            Dispatch "command" Runs.ping_context NoArgs;
            CallBotCheck Runs.ping_context;
            CallCanRun Runs.ping_context;
            CallInvoke Runs.ping_context],
   Raise (OtherBaseException 0)).
Proof. vm_compute. reflexivity. Qed.

(** C4, amended. Once a command is located, every instance of [Exception]
    that leaves the global check, [context.can_run()] or [context.invoke()],
    and the [CheckError] of a check that returns false, is caught: the error
    handler of the command is called with it and, when that handler
    returns, command_error is dispatched and [process_commands] returns
    [None].  What is no instance of [Exception] is not caught: it is raised
    to the caller, with no error handler called and nothing dispatched.  A
    global check that fails is routed without [context.invoke()] being
    called. *)
Theorem exceptions_take_error_route {CF : CaseFold}
    (h : Hooks) (w : World) (message : Message) (body : string) (prefixes : Prefixes)
    (c1 : CommandsClient) (rest : string) (view : StringView) (command_name : string)
    (command : Command) :
  content message = ContentStr body →
  get_prefix h message (client w) = (c1, Return prefixes) →
  strip_prefix (normalize_prefixes prefixes) body = Some rest →
  Str.truthy rest = true →
  get_next_word h (mkStringView rest) = (view, Return command_name) →
  get_command c1 command_name = Return command →
  ∀ context w1,
    context = mkContext (Some command) command_name view message →
    w1 = lookup_world w message c1 rest command_name →
    (* what is raised, and where *)
    ((∀ c2 e, bot_check h context c1 = (c2, Raise e) →
        run_command h context w1 =
        (mkWorld c2 (trace w1 ++ [Dispatch "command" context NoArgs; CallBotCheck context]),
         Raise e)) ∧
     (∀ c2, bot_check h context c1 = (c2, Return false) →
        run_command h context w1 =
        (mkWorld c2 (trace w1 ++ [Dispatch "command" context NoArgs; CallBotCheck context]),
         Raise (CheckError "the global check for the command failed"))) ∧
     (∀ c2 c3 e, bot_check h context c1 = (c2, Return true) →
        can_run h context c2 = (c3, Raise e) →
        run_command h context w1 =
        (mkWorld c3 (trace w1 ++ [Dispatch "command" context NoArgs; CallBotCheck context;
                                  CallCanRun context]),
         Raise e)) ∧
     (∀ c2 c3, bot_check h context c1 = (c2, Return true) →
        can_run h context c2 = (c3, Return false) →
        run_command h context w1 =
        (mkWorld c3 (trace w1 ++ [Dispatch "command" context NoArgs; CallBotCheck context;
                                  CallCanRun context]),
         Raise (CheckError "the check(s) for the command failed"))) ∧
     (∀ c2 c3 c4 e, bot_check h context c1 = (c2, Return true) →
        can_run h context c2 = (c3, Return true) →
        invoke h context c3 = (c4, Raise e) →
        run_command h context w1 =
        (mkWorld c4 (trace w1 ++ [Dispatch "command" context NoArgs; CallBotCheck context;
                                  CallCanRun context; CallInvoke context]),
         Raise e))) ∧
    (* what is raised is routed *)
    (∀ w2 e c3,
        run_command h context w1 = (w2, Raise e) →
        is_Exception e = true →
        _error_handler h command (cog_or_self command) context e (client w2)
        = (c3, Return tt) →
        process_commands h message w =
        (mkWorld c3 (trace w2 ++ [CallErrorHandler command (cog_or_self command) context e;
                                  Dispatch "command_error" context (ErrorArg e)]),
         Return PyNone)) ∧
    (* what is no instance of Exception is raised to the caller *)
    (∀ w2 e,
        run_command h context w1 = (w2, Raise e) →
        is_Exception e = false →
        process_commands h message w = (w2, Raise e)) ∧
    (* a failing global check *)
    (∀ c2 c3,
        bot_check h context c1 = (c2, Return false) →
        _error_handler h command (cog_or_self command) context
                       (CheckError "the global check for the command failed") c2
        = (c3, Return tt) →
        process_commands h message w =
        (mkWorld c3 (trace w1 ++
                     [Dispatch "command" context NoArgs;
                      CallBotCheck context;
                      CallErrorHandler command (cog_or_self command) context
                        (CheckError "the global check for the command failed");
                      Dispatch "command_error" context
                        (ErrorArg (CheckError "the global check for the command failed"))]),
         Return PyNone)).
Proof.
  intros Hcontent Hprefix Hstrip Hrest Hword Hget context w1 -> ->.
  pose proof (process_commands_found h w message body prefixes c1 rest view command_name
                Hcontent Hprefix Hstrip Hrest Hword command Hget) as Hfound.
  set (context := mkContext (Some command) command_name view message) in *.
  set (w1 := lookup_world w message c1 rest command_name) in *.
  assert (Hroute : ∀ w2 e c3,
             run_command h context w1 = (w2, Raise e) →
             is_Exception e = true →
             _error_handler h command (cog_or_self command) context e (client w2)
             = (c3, Return tt) →
             process_commands h message w =
             (mkWorld c3 (trace w2 ++
                          [CallErrorHandler command (cog_or_self command) context e;
                           Dispatch "command_error" context (ErrorArg e)]),
              Return PyNone)).
  { intros w2 e c3 Hrun He Hhandler. rewrite Hfound. unfold try_except.
    rewrite Hrun, He. by apply error_route_returns. }
  split; [|split; [|split]].
  - repeat split.
    + intros c2 e. exact (run_command_bot_check_raises h context w1 c2 e).
    + intros c2. exact (run_command_bot_check_fails h context w1 c2).
    + intros c2 c3 e. exact (run_command_can_run_raises h context w1 c2 c3 e).
    + intros c2 c3. exact (run_command_can_run_fails h context w1 c2 c3).
    + intros c2 c3 c4 e. exact (run_command_invoke_raises h context w1 c2 c3 c4 e).
  - exact Hroute.
  - intros w2 e Hrun He. rewrite Hfound. unfold try_except. by rewrite Hrun, He.
  - intros c2 c3 Hcheck Hhandler.
    rewrite (Hroute _ _ c3 (run_command_bot_check_fails h context w1 c2 Hcheck) eq_refl)
      by exact Hhandler.
    simpl. by rewrite <- app_assoc.
Qed.

Lemma exceptions_take_error_route_witness :
  process_commands Runs.guarded (Runs.text "!ping") Runs.start =
  (mkWorld Examples.sensitive
           (trace (lookup_world Runs.start (Runs.text "!ping") Examples.sensitive
                                "ping" "ping") ++
            [Dispatch "command" Runs.ping_context NoArgs;
             CallBotCheck Runs.ping_context;
             CallErrorHandler Examples.ping OwnerClient Runs.ping_context
               (CheckError "the global check for the command failed");
             Dispatch "command_error" Runs.ping_context
               (ErrorArg (CheckError "the global check for the command failed"))]),
   Return PyNone).
Proof.
  refine (proj2 (proj2 (proj2
    (exceptions_take_error_route Runs.guarded Runs.start (Runs.text "!ping") "!ping"
       (PrefixList ["!"; "?"]) Examples.sensitive "ping" (mkStringView "") "ping"
       Examples.ping _ _ _ _ _ _ Runs.ping_context _ _ eq_refl)))
    Examples.sensitive Examples.sensitive _ _);
    vm_compute; reflexivity.
Defined.

(** ** Prefixes *)

Lemma startswith_spec (s p : string) :
  Str.startswith s p = true ↔ ∃ r, s = p +:+ r.
Proof.
  revert s. induction p as [|a p IH]; intros s; simpl.
  - split; [intros _; by exists s | done].
  - destruct s as [|b s].
    + split; [done | intros [r Hr]; discriminate Hr].
    + case_decide as Hab.
      * subst b. rewrite IH. split.
        -- intros [r ->]. by exists r.
        -- intros [r Hr]. exists r. by injection Hr.
      * split; [done | intros [r Hr]]. injection Hr as Hb _. by subst.
Qed.

Lemma slice_from_app (p r : string) :
  Str.slice_from (String.length p) (p +:+ r) = r.
Proof. induction p as [|a p IH]; simpl; [by destruct r | done]. Qed.

(** The loop stops at the first prefix with which the content starts, and
    what it leaves is the content without that prefix. *)
Lemma strip_prefix_Some (prefixes : list string) (body rest : string) :
  strip_prefix prefixes body = Some rest ↔
  ∃ before p after,
    prefixes = before ++ p :: after ∧
    Forall (fun q => ¬ ∃ r, body = q +:+ r) before ∧
    body = p +:+ rest.
Proof.
  induction prefixes as [|q prefixes IH]; simpl.
  - split; [done|]. intros (before & p & after & Heq & _). by destruct before.
  - destruct (Str.startswith body q) eqn:Hq.
    + apply startswith_spec in Hq as [r Hr]. split.
      * intros Hsome. injection Hsome as <-. exists [], q, prefixes.
        split; [done|]. split; [constructor|].
        rewrite Hr at 2. by rewrite slice_from_app.
      * intros (before & p & after & Heq & Hbefore & Hbody).
        destruct before as [|q' before]; simpl in Heq; injection Heq as Hq' Hrest.
        -- subst p. f_equal. rewrite Hbody. apply slice_from_app.
        -- subst q'. apply Forall_cons in Hbefore as [Hnot _].
           exfalso. apply Hnot. by exists r.
    + assert (Hnot : ¬ ∃ r, body = q +:+ r).
      { intros Hex. apply startswith_spec in Hex. congruence. }
      rewrite IH. split.
      * intros (before & p & after & Heq & Hbefore & Hbody).
        exists (q :: before), p, after. split; [by rewrite Heq|]. split; [|done].
        by apply Forall_cons.
      * intros (before & p & after & Heq & Hbefore & Hbody).
        destruct before as [|q' before]; simpl in Heq; injection Heq as Hq' Hrest.
        -- subst p. exfalso. apply Hnot. by exists rest.
        -- apply Forall_cons in Hbefore as [_ Hbefore]. by exists before, p, after.
Qed.

Lemma strip_prefix_None (prefixes : list string) (body : string) :
  strip_prefix prefixes body = None ↔ Forall (fun q => ¬ ∃ r, body = q +:+ r) prefixes.
Proof.
  induction prefixes as [|q prefixes IH]; simpl.
  - split; [by constructor | done].
  - destruct (Str.startswith body q) eqn:Hq.
    + apply startswith_spec in Hq. split; [done|].
      intros Hall. apply Forall_cons in Hall as [Hnot _]. done.
    + rewrite IH. split.
      * intros Hall. apply Forall_cons. split; [|done].
        intros Hex. apply startswith_spec in Hex. congruence.
      * intros Hall. by apply Forall_cons in Hall as [_ Hall].
Qed.

(** ** Runs only add to the trace *)

Lemma extends_ret {A} (a : A) : extends (ret a).
Proof. intros w. done. Qed.

Lemma extends_raise {A} (e : exn) : extends (@raise A e).
Proof. intros w. done. Qed.

Lemma extends_record (a : Action) : extends (record a).
Proof. intros w. simpl. by apply prefix_app_r. Qed.

Lemma extends_call {A} (a : Action) (f : CommandsClient → CommandsClient * result A) :
  extends (call a f).
Proof. intros w. unfold call. destruct (f (client w)). simpl. by apply prefix_app_r. Qed.

Lemma extends_query {A} (a : Action) (f : CommandsClient → result A) :
  extends (query a f).
Proof. intros w. simpl. by apply prefix_app_r. Qed.

Lemma extends_bind {A B} (m : M A) (k : A → M B) :
  extends m → (∀ a, extends (k a)) → extends (bind m k).
Proof.
  intros Hm Hk w. unfold bind. specialize (Hm w).
  destruct (m w) as [w' [a|e]]; simpl in *; [|done].
  etrans; [exact Hm | apply Hk].
Qed.

Lemma extends_try_except {A} (body : M A) (catches : exn → bool) (handler : exn → M A) :
  extends body → (∀ e, extends (handler e)) → extends (try_except body catches handler).
Proof.
  intros Hbody Hhandler w. unfold try_except. specialize (Hbody w).
  destruct (body w) as [w' [a|e]]; simpl in *; [done|].
  destruct (catches e); [|done].
  etrans; [exact Hbody | apply Hhandler].
Qed.

Lemma extends_run_command (h : Hooks) (context : Context) : extends (run_command h context).
Proof.
  unfold run_command, dispatch.
  apply extends_bind; [apply extends_record|]. intros _.
  apply extends_bind; [apply extends_call|]. intros [|]; simpl; [|apply extends_raise].
  apply extends_bind; [apply extends_call|]. intros [|]; simpl; [|apply extends_raise].
  apply extends_bind; [apply extends_call|]. intros output.
  apply extends_bind; [apply extends_record|]. intros _. apply extends_ret.
Qed.

Lemma extends_error_route (h : Hooks) (command : Command) (context : Context) (e : exn) :
  extends (error_route h command context e).
Proof.
  unfold error_route, dispatch.
  apply extends_bind; [apply extends_call|]. intros _.
  apply extends_bind; [apply extends_record|]. intros _. apply extends_ret.
Qed.

Lemma extends_after_word {CF : CaseFold} (h : Hooks) (message : Message) word :
  extends (after_word h message word).
Proof.
  destruct word as [[view command_name]|]; simpl; [|apply extends_ret].
  apply extends_bind.
  - apply extends_try_except; [|intros _; apply extends_ret].
    apply extends_bind; [apply extends_query | intros c; apply extends_ret].
  - intros [command|].
    + apply extends_try_except; [apply extends_run_command|].
      intros e. apply extends_error_route.
    + apply extends_bind; [apply extends_record | intros _; apply extends_ret].
Qed.

(** After a prefix matched and left some text, the tokenizer is called on
    that text, and on nothing else. *)
Lemma process_commands_hands_rest {CF : CaseFold} (h : Hooks) (w : World) (message : Message)
    (body : string) (prefixes : Prefixes) (c1 : CommandsClient) (rest : string) :
  content message = ContentStr body →
  get_prefix h message (client w) = (c1, Return prefixes) →
  strip_prefix (normalize_prefixes prefixes) body = Some rest →
  Str.truthy rest = true →
  (trace w ++ [CallGetPrefix message; CallGetNextWord (mkStringView rest)])
    `prefix_of` trace (fst (process_commands h message w)).
Proof.
  intros Hcontent Hprefix Hstrip Hrest. unfold process_commands. rewrite Hcontent.
  unfold bind at 1. unfold call at 1. rewrite Hprefix. simpl.
  rewrite Hstrip, Hrest. simpl.
  change (trace w ++ [CallGetPrefix message; CallGetNextWord (mkStringView rest)])
    with (trace w ++ [CallGetPrefix message] ++ [CallGetNextWord (mkStringView rest)]).
  rewrite app_assoc.
  set (w1 := mkWorld c1 (trace w ++ [CallGetPrefix message])).
  unfold bind, next_word, try_except.
  destruct (get_next_word h (mkStringView rest)) as [view' [word|e]]; simpl.
  - apply (extends_after_word h message (Some (view', word))
             (mkWorld c1 (trace w1 ++ [CallGetNextWord (mkStringView rest)]))).
  - case_bool_decide; simpl; done.
Qed.

(** C6. A single string stands for the list that holds it; the prefixes are
    tried in the order given, the first one that the content starts with is
    selected and the content loses exactly that prefix, which is what the
    tokenizer then receives; when the content starts with none of them,
    [process_commands] returns [None] and has dispatched nothing. *)
Theorem prefixes_tried_in_order {CF : CaseFold} :
  (∀ p, normalize_prefixes (PrefixStr p) = [p]) ∧
  (∀ ps, normalize_prefixes (PrefixList ps) = ps) ∧
  (∀ prefixes body rest,
      strip_prefix prefixes body = Some rest ↔
      ∃ before p after,
        prefixes = before ++ p :: after ∧
        Forall (fun q => ¬ ∃ r, body = q +:+ r) before ∧
        body = p +:+ rest) ∧
  (∀ prefixes body,
      strip_prefix prefixes body = None ↔
      Forall (fun q => ¬ ∃ r, body = q +:+ r) prefixes) ∧
  (∀ h w message body prefixes c1 rest,
      content message = ContentStr body →
      get_prefix h message (client w) = (c1, Return prefixes) →
      strip_prefix (normalize_prefixes prefixes) body = Some rest →
      Str.truthy rest = true →
      (trace w ++ [CallGetPrefix message; CallGetNextWord (mkStringView rest)])
        `prefix_of` trace (fst (process_commands h message w))) ∧
  (∀ h w message body prefixes c1,
      content message = ContentStr body →
      get_prefix h message (client w) = (c1, Return prefixes) →
      strip_prefix (normalize_prefixes prefixes) body = None →
      process_commands h message w =
      (mkWorld c1 (trace w ++ [CallGetPrefix message]), Return PyNone)).
Proof.
  split; [done|]. split; [done|].
  split; [exact strip_prefix_Some|]. split; [exact strip_prefix_None|].
  split; [exact process_commands_hands_rest|].
  intros h w message body prefixes c1 Hcontent Hprefix Hstrip.
  unfold process_commands. rewrite Hcontent.
  unfold bind, call. rewrite Hprefix. simpl. by rewrite Hstrip.
Qed.

(** The two runs of the specification: with the prefixes ! and ?, the
    content !ping loses the first prefix, and hello stops the run. *)
Lemma prefix_examples :
  strip_prefix ["!"; "?"] "!ping" = Some "ping" ∧
  strip_prefix ["!"; "?"] "hello" = None ∧
  process_commands Runs.hooks (Runs.text "hello") Runs.start =
  (mkWorld Examples.sensitive [CallGetPrefix (Runs.text "hello")], Return PyNone).
Proof. repeat split; vm_compute; reflexivity. Qed.

(** ** The help command *)

(** C9. Whatever is passed as [help_command], the field of the new client
    is a [DefaultHelpCommand] constructed by [__init__]: its identity is not
    one that existed before the call, so it is not the object supplied, and
    two clients built with different supplied objects are the same. *)
Theorem init_ignores_help_command {CF : CaseFold} (_commands : list Command) (help_impl : Command)
    (next_oid : nat) (supplied : option HelpCommand) (case_insensitive : bool) :
  help_command (init _commands help_impl next_oid supplied case_insensitive) =
    DefaultHelpCommand (match supplied with None => S next_oid | Some _ => next_oid end) ∧
  (next_oid ≤ help_oid (help_command (init _commands help_impl next_oid supplied
                                            case_insensitive)))%nat ∧
  (∀ given, supplied = Some given → (help_oid given < next_oid)%nat →
            help_command (init _commands help_impl next_oid supplied case_insensitive) ≠ given) ∧
  (∀ given given',
      init _commands help_impl next_oid (Some given) case_insensitive =
      init _commands help_impl next_oid (Some given') case_insensitive).
Proof.
  split; [by destruct supplied|]. split; [destruct supplied; simpl; lia|].
  split; [|done].
  intros given -> Hold Heq. simpl in Heq. subst given. simpl in Hold. lia.
Qed.

(** ** Discovery and seeding *)

Lemma collect_class_spec (commands : list Command) (base : PyClass) :
  collect_class commands base = commands ++ class_commands base.
Proof.
  unfold collect_class, class_commands.
  generalize (snd <$> cls_dict base). intros values. revert commands.
  induction values as [|value values IH]; intros commands; simpl.
  - by rewrite app_nil_r.
  - rewrite IH. destruct value as [c|tag]; simpl; [|done].
    by rewrite <- app_assoc.
Qed.

Lemma foldl_collect_class (classes : list PyClass) (commands : list Command) :
  foldl collect_class commands classes = commands ++ mjoin (class_commands <$> classes).
Proof.
  revert commands. induction classes as [|cls classes IH]; intros commands; simpl.
  - by rewrite app_nil_r.
  - rewrite IH, collect_class_spec. by rewrite <- app_assoc.
Qed.

(** The discovered list is the concatenation of the declarations of the
    classes, the last class of the MRO first. *)
Lemma CommandsMeta_new_spec (mro : list PyClass) :
  CommandsMeta_new mro = mjoin (class_commands <$> reverse mro).
Proof. unfold CommandsMeta_new. by rewrite foldl_collect_class. Qed.

Lemma CommandsMeta_new_cons (derived : PyClass) (bases : list PyClass) :
  CommandsMeta_new (derived :: bases) = CommandsMeta_new bases ++ class_commands derived.
Proof.
  rewrite !CommandsMeta_new_spec, reverse_cons, fmap_app, join_app. simpl.
  by rewrite app_nil_r.
Qed.




Lemma keys_of_register {CF : CaseFold} (d : Registry.t) (c c' : Command) :
  keys_of (register d c) c' = keys_of d c'.
Proof. unfold keys_of. apply list_fmap_ext. intros _ k _. apply fold_key_register. Qed.



Lemma init_all_commands {CF : CaseFold} (cmds : list Command) (help_impl : Command)
    (next_oid : nat) (supplied : option HelpCommand) (ci : bool) :
  all_commands (init cmds help_impl next_oid supplied ci)
  = register (seed (Registry.empty ci) cmds) help_impl.
Proof. unfold init. by destruct supplied, ci. Qed.





(** The run of the example: the registry of a [MyBot] resolves greet to the
    command of [MyBot], and the alias of the base command to the base
    command. *)
Lemma subclass_example :
  CommandsMeta_new [Classes.MyBot; Classes.BaseBot; Classes.CommandsClient_class;
                    Classes.object]
  = [Classes.greet_base; Classes.greet_derived] ∧
  get_command (init [Classes.greet_base; Classes.greet_derived] Examples.help_impl 0 None
                    false) "greet" = Return Classes.greet_derived ∧
  get_command (init [Classes.greet_base; Classes.greet_derived] Examples.help_impl 0 None
                    false) "hi" = Return Classes.greet_base.
Proof. repeat split; vm_compute; reflexivity. Qed.

(** * Further properties *)

(** ** Registering and looking up *)

Lemma get_command_add_command {CF : CaseFold} (self : CommandsClient) (c : Command) (k : string) :
  get_command (add_command self c) k =
  if decide (Registry.fold_key (all_commands self) k ∈ keys_of (all_commands self) c)
  then Return c else get_command self k.
Proof.
  unfold get_command, Registry.getitem. simpl.
  rewrite fold_key_register, register_lookup. by case_decide.
Qed.

Lemma key_in_keys_of {CF : CaseFold} (d : Registry.t) (c : Command) (k : string) :
  k = name c ∨ k ∈ aliases c → Registry.fold_key d k ∈ keys_of d c.
Proof.
  intros Hk. unfold keys_of. apply list_elem_of_fmap. exists k. split; [done|].
  destruct Hk as [->|Hk]; [left | by right].
Qed.

(** X1. A command that was added is found under its name and under each of
    its aliases, in a plain and in a case-insensitive registry. *)
Theorem add_command_then_get_command {CF : CaseFold} (self : CommandsClient) (c : Command) (k : string) :
  k = name c ∨ k ∈ aliases c →
  get_command (add_command self c) k = Return c.
Proof.
  intros Hk. rewrite get_command_add_command.
  rewrite decide_True; [done|]. by apply key_in_keys_of.
Qed.

Lemma add_command_then_get_command_witness :
  get_command (add_command Examples.fresh Examples.ping) "pong" = Return Examples.ping.
Proof.
  apply (add_command_then_get_command Examples.fresh Examples.ping "pong").
  right. vm_compute. right. left.
Defined.

(** X2. Adding a command changes no lookup of a key that the command does
    not register: such a key resolves to the same command, or raises the
    same [KeyError], as before. *)
Theorem add_command_keeps_other_keys {CF : CaseFold} (self : CommandsClient) (c : Command) (k : string) :
  Registry.fold_key (all_commands self) k ∉ keys_of (all_commands self) c →
  get_command (add_command self c) k = get_command self k.
Proof. intros Hk. rewrite get_command_add_command. by rewrite decide_False. Qed.

Lemma add_command_keeps_other_keys_witness :
  get_command (add_command Examples.sensitive Examples.Ping) "ping"
  = get_command Examples.sensitive "ping".
Proof.
  apply (add_command_keeps_other_keys Examples.sensitive Examples.Ping "ping").
  vm_compute. intros Hin. apply list_elem_of_In in Hin.
  destruct Hin as [H|[]]. discriminate H.
Defined.

(** ** Removing *)

Lemma remove_command_case_insensitive (self : CommandsClient) (key : string) :
  Registry.case_insensitive (all_commands (snd (remove_command self key)))
  = Registry.case_insensitive (all_commands self).
Proof.
  unfold remove_command, Registry.pop.
  destruct (Registry.entries (all_commands self) !! key) as [c|]; simpl; [|done].
  unfold pop_aliases.
  by destruct (pop_all_spec (aliases c)
    (Registry.mk (Registry.case_insensitive (all_commands self))
                 (delete key (Registry.entries (all_commands self))))) as [-> _].
Qed.

Lemma remove_command_entries_None (self : CommandsClient) (key k : string) :
  Registry.entries (all_commands self) !! key = None →
  Registry.entries (all_commands (snd (remove_command self key))) !! k
  = Registry.entries (all_commands self) !! k.
Proof.
  intros Hkey. unfold remove_command, Registry.pop. rewrite Hkey. simpl.
  by rewrite delete_id.
Qed.

Lemma remove_command_other_fields (self : CommandsClient) (key : string) :
  cogs (snd (remove_command self key)) = cogs self ∧
  extensions (snd (remove_command self key)) = extensions self ∧
  help_command (snd (remove_command self key)) = help_command self.
Proof.
  unfold remove_command, Registry.pop.
  by destruct (Registry.entries (all_commands self) !! key).
Qed.

(** X3. In a plain [dict], removing a command by its name returns the
    command; afterwards the name and every alias raise [KeyError], and every
    other key resolves as before. *)
Theorem remove_command_by_name {CF : CaseFold} (self : CommandsClient) (c : Command) :
  Registry.case_insensitive (all_commands self) = false →
  get_command self (name c) = Return c →
  fst (remove_command self (name c)) = Some c ∧
  get_command (snd (remove_command self (name c))) (name c) = Raise (KeyError (name c)) ∧
  (∀ a, a ∈ aliases c →
        get_command (snd (remove_command self (name c))) a = Raise (KeyError a)) ∧
  (∀ k, k ≠ name c → k ∉ aliases c →
        get_command (snd (remove_command self (name c))) k = get_command self k).
Proof.
  intros Hci Hget. apply get_command_Return in Hget.
  unfold Registry.fold_key in Hget. rewrite Hci in Hget.
  pose proof (remove_command_case_insensitive self (name c)) as Hci'. rewrite Hci in Hci'.
  assert (Hlk : ∀ k, get_command (snd (remove_command self (name c))) k =
                     if decide (k = name c ∨ k ∈ aliases c) then Raise (KeyError k)
                     else get_command self k).
  { intros k. unfold get_command, Registry.getitem, Registry.fold_key. rewrite Hci', Hci.
    destruct (remove_command_lookup self (name c) c k Hget) as [_ ->]. by case_decide. }
  split; [by destruct (remove_command_lookup self (name c) c (name c) Hget)|].
  split; [rewrite Hlk; rewrite decide_True; auto|].
  split.
  - intros a Ha. rewrite Hlk. rewrite decide_True; auto.
  - intros k Hne Hnotin. rewrite Hlk. rewrite decide_False; [done|]. intros [?|?]; done.
Qed.

Lemma remove_command_by_name_witness :
  fst (remove_command Examples.sensitive (name Examples.ping)) = Some Examples.ping ∧
  get_command (snd (remove_command Examples.sensitive (name Examples.ping)))
              (name Examples.ping) = Raise (KeyError (name Examples.ping)) ∧
  (∀ a, a ∈ aliases Examples.ping →
        get_command (snd (remove_command Examples.sensitive (name Examples.ping))) a
        = Raise (KeyError a)) ∧
  (∀ k, k ≠ name Examples.ping → k ∉ aliases Examples.ping →
        get_command (snd (remove_command Examples.sensitive (name Examples.ping))) k
        = get_command Examples.sensitive k).
Proof.
  apply (remove_command_by_name Examples.sensitive Examples.ping); vm_compute; reflexivity.
Defined.

(** X4. Removing a key under which nothing is stored returns [None] and
    leaves the client as it was. *)
Theorem remove_command_absent (self : CommandsClient) (key : string) :
  Registry.entries (all_commands self) !! key = None →
  remove_command self key = (None, self).
Proof.
  intros Hkey. unfold remove_command, Registry.pop. rewrite Hkey.
  rewrite delete_id by done. by destruct self as [[ci entries] cogs exts help].
Qed.

Lemma remove_command_absent_witness :
  remove_command Examples.sensitive "dance" = (None, Examples.sensitive).
Proof.
  apply (remove_command_absent Examples.sensitive "dance"). vm_compute. reflexivity.
Defined.

(** X5. In a plain [dict], adding a command none of whose keys was taken and
    removing it by its name gives the client back. *)
Theorem add_then_remove_command {CF : CaseFold} (self : CommandsClient) (c : Command) :
  Registry.case_insensitive (all_commands self) = false →
  (∀ k, k = name c ∨ k ∈ aliases c → Registry.entries (all_commands self) !! k = None) →
  remove_command (add_command self c) (name c) = (Some c, self).
Proof.
  intros Hci Hfree.
  assert (Hkeys : keys_of (all_commands self) c = name c :: aliases c).
  { unfold keys_of. rewrite <- (list_fmap_id (name c :: aliases c)) at 2.
    apply list_fmap_ext. intros _ k _. unfold Registry.fold_key. by rewrite Hci. }
  assert (Hname : Registry.entries (all_commands (add_command self c)) !! name c = Some c).
  { simpl. rewrite register_lookup, Hkeys. rewrite decide_True; [done|]. by left. }
  pose proof (remove_command_lookup (add_command self c) (name c) c) as Hlk.
  pose proof (remove_command_case_insensitive (add_command self c) (name c)) as Hci'.
  simpl in Hci'. rewrite register_case_insensitive in Hci'.
  pose proof (remove_command_other_fields (add_command self c) (name c)) as Hother.
  destruct (remove_command (add_command self c) (name c)) as [r self'] eqn:Hrm.
  simpl in *. destruct (Hlk (name c) Hname) as [-> _]. f_equal.
  assert (Hentries : Registry.entries (all_commands self')
                     = Registry.entries (all_commands self)).
  { apply map_eq. intros k. destruct (Hlk k Hname) as [_ ->].
    rewrite register_lookup, Hkeys. case_decide as Hk.
    - symmetry. apply Hfree. done.
    - rewrite decide_False; [done|]. intros Hin. apply Hk.
      apply elem_of_cons in Hin. done. }
  destruct Hother as (Hcogs & Hexts & Hhelp).
  destruct self as [[ci entries] cogs0 exts help], self' as [[ci' entries'] cogs' exts' help'].
  simpl in *. by subst.
Qed.

Lemma add_then_remove_command_witness :
  remove_command (add_command Examples.fresh Examples.ping) (name Examples.ping)
  = (Some Examples.ping, Examples.fresh).
Proof.
  apply (add_then_remove_command Examples.fresh Examples.ping); [reflexivity|].
  intros k [->|Hk].
  - vm_compute. reflexivity.
  - apply list_elem_of_In in Hk. vm_compute in Hk.
    destruct Hk as [<-|[<-|[]]]; vm_compute; reflexivity.
Defined.

(** X6. The [commands] list holds every command that some key maps to, and
    holds it once, whatever the number of its keys; a command that was just
    added is in it. *)
Theorem commands_lists_each_command_once {CF : CaseFold} (self : CommandsClient) :
  NoDup (commands self) ∧
  (∀ c, c ∈ commands self ↔ ∃ k, Registry.entries (all_commands self) !! k = Some c) ∧
  (∀ c, c ∈ commands (add_command self c)).
Proof.
  split; [apply NoDup_remove_dups|]. split; [apply elem_of_commands|].
  intros c. apply elem_of_commands.
  exists (Registry.fold_key (all_commands self) (name c)). simpl.
  rewrite register_lookup. rewrite decide_True; [done|].
  apply key_in_keys_of. by left.
Qed.

(** ** The keys of the registry *)

Lemma keys_of_same_class {CF : CaseFold} (d d' : Registry.t) (c : Command) :
  Registry.case_insensitive d' = Registry.case_insensitive d →
  keys_of d' c = keys_of d c.
Proof.
  intros Hci. unfold keys_of. apply list_fmap_ext. intros _ k _.
  unfold Registry.fold_key. by rewrite Hci.
Qed.

Lemma well_keyed_register {CF : CaseFold} (d : Registry.t) (c : Command) :
  well_keyed d → well_keyed (register d c).
Proof.
  intros Hd k c' Hk. rewrite keys_of_register. rewrite register_lookup in Hk.
  case_decide as Hin; [by simplify_eq | by apply Hd].
Qed.

Lemma well_keyed_seed {CF : CaseFold} (d : Registry.t) (cmds : list Command) :
  well_keyed d → well_keyed (seed d cmds).
Proof.
  unfold seed. revert d. induction cmds as [|c cmds IH]; intros d Hd; simpl; [done|].
  apply IH. by apply well_keyed_register.
Qed.

Lemma well_keyed_init {CF : CaseFold} (cmds : list Command) (help_impl : Command) (next_oid : nat)
    (supplied : option HelpCommand) (ci : bool) :
  well_keyed (all_commands (init cmds help_impl next_oid supplied ci)).
Proof.
  rewrite init_all_commands.
  apply well_keyed_register, well_keyed_seed. intros k c Hk.
  simpl in Hk. by rewrite lookup_empty in Hk.
Qed.

(** X7. Every key of the registry of a new client is the name or an alias
    (folded when the registry folds) of the command it maps to, and
    [add_command] and [remove_command] keep it so. *)
Theorem registry_keys_belong_to_their_command {CF : CaseFold} :
  (∀ cmds help_impl next_oid supplied ci,
      well_keyed (all_commands (init cmds help_impl next_oid supplied ci))) ∧
  (∀ self c, well_keyed (all_commands self) → well_keyed (all_commands (add_command self c))) ∧
  (∀ self key, well_keyed (all_commands self) →
               well_keyed (all_commands (snd (remove_command self key)))).
Proof.
  split; [|split].
  - apply well_keyed_init.
  - intros self c Hwk. simpl. by apply well_keyed_register.
  - intros self key Hwk k c Hk.
    rewrite (keys_of_same_class (all_commands self))
      by apply remove_command_case_insensitive.
    apply Hwk.
    destruct (Registry.entries (all_commands self) !! key) as [c0|] eqn:Hkey.
    + destruct (remove_command_lookup self key c0 k Hkey) as [_ Hlk].
      rewrite Hlk in Hk. by case_decide.
    + by rewrite remove_command_entries_None in Hk.
Qed.

(** X8. When [str.casefold] is idempotent, which the full case folding of
    Unicode is, every key stored in a case-insensitive registry whose keys
    belong to their commands is its own case fold. *)
Theorem case_insensitive_keys_are_folded {CF : CaseFold} (self : CommandsClient)
    (k : string) (c : Command) :
  (∀ s, casefold (casefold s) = casefold s) →
  Registry.case_insensitive (all_commands self) = true →
  well_keyed (all_commands self) →
  Registry.entries (all_commands self) !! k = Some c →
  casefold k = k.
Proof.
  intros Hidem Hci Hwk Hk. apply Hwk in Hk. unfold keys_of in Hk.
  apply list_elem_of_fmap in Hk as (k' & -> & _).
  unfold Registry.fold_key. rewrite Hci. apply Hidem.
Qed.

Lemma case_insensitive_keys_are_folded_witness :
  casefold (CaseFold := ascii_fold) "ping" = "ping".
Proof.
  apply (case_insensitive_keys_are_folded (CF := ascii_fold) Examples.insensitive "ping"
           Examples.Ping).
  - exact lower_idem.
  - reflexivity.
  - apply well_keyed_register, well_keyed_init.
  - vm_compute. reflexivity.
Defined.

(** X9. In a case-insensitive registry, [remove_command] on the case fold
    of a key under which [get_command] finds a command returns that command,
    after which the key raises [KeyError]. *)
Theorem remove_command_folded_key {CF : CaseFold} (self : CommandsClient) (k : string) (c : Command) :
  Registry.case_insensitive (all_commands self) = true →
  get_command self k = Return c →
  fst (remove_command self (casefold k)) = Some c ∧
  get_command (snd (remove_command self (casefold k))) k
  = Raise (KeyError (casefold k)).
Proof.
  intros Hci Hget. apply get_command_Return in Hget.
  unfold Registry.fold_key in Hget. rewrite Hci in Hget.
  destruct (remove_command_lookup self (casefold k) c (casefold k) Hget)
    as [Hfst Hlk].
  split; [done|].
  unfold get_command, Registry.getitem, Registry.fold_key.
  rewrite remove_command_case_insensitive, Hci, Hlk.
  rewrite decide_True; auto.
Qed.

Lemma remove_command_folded_key_witness :
  fst (remove_command Examples.insensitive (casefold "PING")) = Some Examples.Ping ∧
  get_command (snd (remove_command Examples.insensitive (casefold "PING"))) "PING"
  = Raise (KeyError (casefold "PING")).
Proof.
  apply (remove_command_folded_key Examples.insensitive "PING" Examples.Ping);
    vm_compute; reflexivity.
Defined.

(** ** The registry of a new client *)

(** X10. The help command is registered after the declared commands: in a
    new client its name and its aliases resolve to it, whatever commands the
    class declares under those keys. *)
Theorem init_registers_help_command {CF : CaseFold} (cmds : list Command) (help_impl : Command)
    (next_oid : nat) (supplied : option HelpCommand) (ci : bool) (k : string) :
  k = name help_impl ∨ k ∈ aliases help_impl →
  get_command (init cmds help_impl next_oid supplied ci) k = Return help_impl.
Proof.
  intros Hk. apply get_command_Return. rewrite init_all_commands.
  rewrite fold_key_register, register_lookup.
  rewrite decide_True; [done|]. by apply key_in_keys_of.
Qed.

Lemma init_registers_help_command_witness :
  get_command (init [mkCommand 9 "help" [] None] Examples.help_impl 0 None false) "help"
  = Return Examples.help_impl.
Proof.
  apply (init_registers_help_command [mkCommand 9 "help" [] None] Examples.help_impl
           0 None false "help").
  left. reflexivity.
Defined.

Lemma seed_lookup_origin {CF : CaseFold} (d : Registry.t) (cmds : list Command) (k : string) (c : Command) :
  Registry.entries (seed d cmds) !! k = Some c →
  c ∈ cmds ∨ Registry.entries d !! k = Some c.
Proof.
  unfold seed. revert d. induction cmds as [|c' cmds IH]; intros d Hk; simpl in *.
  - by right.
  - apply IH in Hk as [Hk|Hk]; [left; by right|].
    rewrite register_lookup in Hk. case_decide; [|by right].
    left. simplify_eq. by left.
Qed.

(** X11. A new client has no cog and no extension, and its [commands] are
    commands that the class declares or the help command: nothing else is
    registered. *)
Theorem init_registers_nothing_else {CF : CaseFold} (cmds : list Command) (help_impl : Command)
    (next_oid : nat) (supplied : option HelpCommand) (ci : bool) :
  cogs (init cmds help_impl next_oid supplied ci) = ∅ ∧
  extensions (init cmds help_impl next_oid supplied ci) = ∅ ∧
  Registry.case_insensitive (all_commands (init cmds help_impl next_oid supplied ci)) = ci ∧
  (∀ c, c ∈ commands (init cmds help_impl next_oid supplied ci) →
        c ∈ cmds ∨ c = help_impl).
Proof.
  split; [by destruct supplied, ci|]. split; [by destruct supplied, ci|]. split.
  - rewrite init_all_commands, register_case_insensitive.
    unfold seed.
    assert (Hgen : ∀ d, Registry.case_insensitive (foldl register d cmds)
                        = Registry.case_insensitive d).
    { induction cmds as [|c cmds IH]; intros d; simpl; [done|].
      by rewrite IH, register_case_insensitive. }
    by rewrite Hgen.
  - intros c Hc. apply elem_of_commands in Hc as [k Hk].
    rewrite init_all_commands, register_lookup in Hk.
    case_decide; [right; by simplify_eq|].
    apply seed_lookup_origin in Hk as [Hk|Hk]; [by left|].
    simpl in Hk. by rewrite lookup_empty in Hk.
Qed.

(** ** Discovery *)

(** X12. The discovered list holds exactly the commands found in the
    [__dict__] of a class of the MRO, and the list of a class whose MRO is
    its own entry followed by the MRO of its base is the list of the base
    followed by its own declarations. *)
Theorem discovery_collects_declared_commands :
  (∀ mro c, c ∈ CommandsMeta_new mro ↔ ∃ cls, cls ∈ mro ∧ c ∈ class_commands cls) ∧
  (∀ cls c, c ∈ class_commands cls ↔ ∃ attr, (attr, AttrCommand c) ∈ cls_dict cls) ∧
  (∀ derived bases,
      CommandsMeta_new (derived :: bases) = CommandsMeta_new bases ++ class_commands derived) ∧
  (∀ mro, Forall (fun cls => class_commands cls = []) mro → CommandsMeta_new mro = []).
Proof.
  split; [|split; [|split]].
  - intros mro c. rewrite CommandsMeta_new_spec, list_elem_of_join. split.
    + intros (l & Hc & Hl). apply list_elem_of_fmap in Hl as (cls & -> & Hcls).
      exists cls. split; [|done]. by apply elem_of_reverse.
    + intros (cls & Hcls & Hc). exists (class_commands cls). split; [done|].
      apply list_elem_of_fmap. exists cls. split; [done|]. by apply elem_of_reverse.
  - intros cls c. unfold class_commands. rewrite list_elem_of_omap. split.
    + intros (value & Hvalue & Hc). apply list_elem_of_fmap in Hvalue as ([attr v] & -> & Hin).
      simpl in Hc. destruct v as [c'|tag]; simpl in Hc; [|done].
      injection Hc as ->. by exists attr.
    + intros (attr & Hin). exists (AttrCommand c). split; [|done].
      apply list_elem_of_fmap. by exists (attr, AttrCommand c).
  - exact CommandsMeta_new_cons.
  - intros mro Hall. rewrite CommandsMeta_new_spec. apply join_nil.
    apply Forall_fmap. apply Forall_reverse. done.
Qed.

(** ** [CaseInsensitiveDict] and [dict] *)

(** X13. What is stored under a key is found under every key with the same
    fold (every spelling, in a [CaseInsensitiveDict]; the key itself, in a
    [dict]) by indexing, [in] and [get], and [del] with such a key removes
    it. *)
Theorem dict_setitem_then_lookup {CF : CaseFold} (d : Registry.t) (k k' : string) (v : Command) :
  Registry.fold_key d k = Registry.fold_key d k' →
  Registry.getitem (Registry.setitem d k v) k' = Return v ∧
  Registry.contains (Registry.setitem d k v) k' = true ∧
  Registry.get (Registry.setitem d k v) k' = Some v ∧
  ∃ d', Registry.delitem (Registry.setitem d k v) k' = Return d' ∧
        Registry.contains d' k = false ∧
        Registry.getitem d' k = Raise (KeyError (Registry.fold_key d k)) ∧
        Registry.entries d' = delete (Registry.fold_key d k) (Registry.entries d).
Proof.
  intros Hk.
  assert (Hlk : Registry.entries (Registry.setitem d k v)
                  !! Registry.fold_key (Registry.setitem d k v) k' = Some v).
  { simpl. rewrite fold_key_setitem, <- Hk. apply lookup_insert_eq. }
  split; [unfold Registry.getitem; by rewrite Hlk|].
  split; [unfold Registry.contains; rewrite Hlk; by apply bool_decide_eq_true|].
  split; [done|].
  unfold Registry.delitem. rewrite Hlk. eexists. split; [done|].
  unfold Registry.contains, Registry.getitem. simpl.
  change (Registry.fold_key _ k) with (Registry.fold_key d k).
  rewrite fold_key_setitem, <- Hk, lookup_delete_eq.
  split; [by apply bool_decide_eq_false; intros [? ?]|]. split; [done|].
  by rewrite delete_insert_eq.
Qed.

Lemma dict_setitem_then_lookup_witness :
  Registry.getitem (Registry.setitem (Registry.empty true) "Ping" Examples.Ping) "pING"
  = Return Examples.Ping.
Proof.
  apply (dict_setitem_then_lookup (Registry.empty true) "Ping" "pING" Examples.Ping).
  vm_compute. reflexivity.
Defined.

(** X14. Storing under a key changes nothing under a key with another fold;
    [in], indexing, [get] and [del] agree on whether a key is present, and
    indexing or deleting an absent key raises [KeyError] with the folded
    key. *)
Theorem dict_lookups_agree {CF : CaseFold} (d : Registry.t) (k : string) :
  (∀ k' v, Registry.fold_key d k' ≠ Registry.fold_key d k →
           Registry.getitem (Registry.setitem d k' v) k = Registry.getitem d k ∧
           Registry.contains (Registry.setitem d k' v) k = Registry.contains d k) ∧
  (Registry.contains d k = true ↔ ∃ v, Registry.getitem d k = Return v) ∧
  (Registry.contains d k = true ↔ ∃ v, Registry.get d k = Some v) ∧
  (Registry.contains d k = true ↔ ∃ d', Registry.delitem d k = Return d') ∧
  (Registry.contains d k = false ↔
   Registry.getitem d k = Raise (KeyError (Registry.fold_key d k))) ∧
  (Registry.contains d k = false ↔
   Registry.delitem d k = Raise (KeyError (Registry.fold_key d k))).
Proof.
  split.
  { intros k' v Hne. unfold Registry.getitem, Registry.contains. simpl.
    rewrite !fold_key_setitem, lookup_insert_ne by done. done. }
  unfold Registry.contains, Registry.getitem, Registry.get, Registry.delitem.
  destruct (Registry.entries d !! Registry.fold_key d k) as [c|] eqn:Hlk.
  - assert (Ht : bool_decide (is_Some (Some c)) = true) by by apply bool_decide_eq_true.
    rewrite Ht. repeat split; eauto; done.
  - assert (Hf : bool_decide (is_Some (@None Command)) = false).
    { apply bool_decide_eq_false. by intros [? ?]. }
    rewrite Hf. repeat split; try done; intros [? ?]; done.
Qed.

(** ** Runs of the pipeline *)

(** X15. When both checks pass and the command returns, [process_commands]
    returns the output of the command, having dispatched command before the
    checks and after_command_invoke with the output after the command; no
    error handler is called and no command_error is dispatched. *)
Theorem successful_command_returns_output {CF : CaseFold}
    (h : Hooks) (w : World) (message : Message) (body : string) (prefixes : Prefixes)
    (c1 : CommandsClient) (rest : string) (view : StringView) (command_name : string)
    (command : Command) (c2 c3 c4 : CommandsClient) (output : PyValue) :
  content message = ContentStr body →
  get_prefix h message (client w) = (c1, Return prefixes) →
  strip_prefix (normalize_prefixes prefixes) body = Some rest →
  Str.truthy rest = true →
  get_next_word h (mkStringView rest) = (view, Return command_name) →
  get_command c1 command_name = Return command →
  bot_check h (mkContext (Some command) command_name view message) c1 = (c2, Return true) →
  can_run h (mkContext (Some command) command_name view message) c2 = (c3, Return true) →
  invoke h (mkContext (Some command) command_name view message) c3 = (c4, Return output) →
  process_commands h message w =
  (mkWorld c4
     (trace w ++
      [CallGetPrefix message;
       CallGetNextWord (mkStringView rest);
       CallGetCommand command_name;
       Dispatch "command" (mkContext (Some command) command_name view message) NoArgs;
       CallBotCheck (mkContext (Some command) command_name view message);
       CallCanRun (mkContext (Some command) command_name view message);
       CallInvoke (mkContext (Some command) command_name view message);
       Dispatch "after_command_invoke"
                (mkContext (Some command) command_name view message) (OutputArg output)]),
   Return output).
Proof.
  intros Hcontent Hprefix Hstrip Hrest Hword Hget Hcheck Hrun Hinvoke.
  rewrite (process_commands_found h w message body prefixes c1 rest view command_name
             Hcontent Hprefix Hstrip Hrest Hword command Hget).
  unfold try_except, run_command, bind, dispatch, record, call, ret, lookup_world. simpl.
  rewrite Hcheck. simpl. rewrite Hrun. simpl. rewrite Hinvoke. simpl.
  by rewrite <- !app_assoc.
Qed.

Lemma successful_command_returns_output_witness :
  process_commands Runs.hooks (Runs.text "!ping") Runs.start =
  (mkWorld Examples.sensitive
     (trace Runs.start ++
      [CallGetPrefix (Runs.text "!ping");
       CallGetNextWord (mkStringView "ping");
       CallGetCommand "ping";
       Dispatch "command" Runs.ping_context NoArgs;
       CallBotCheck Runs.ping_context;
       CallCanRun Runs.ping_context;
       CallInvoke Runs.ping_context;
       Dispatch "after_command_invoke" Runs.ping_context (OutputArg (PyObject 7))]),
   Return (PyObject 7)).
Proof.
  apply (successful_command_returns_output Runs.hooks Runs.start (Runs.text "!ping") "!ping"
           (PrefixList ["!"; "?"]) Examples.sensitive "ping" (mkStringView "") "ping"
           Examples.ping Examples.sensitive Examples.sensitive Examples.sensitive
           (PyObject 7));
    vm_compute; reflexivity.
Defined.

(** X16. A message that is a prefix and nothing more stops the run after
    [get_prefix]: [None] is returned, the tokenizer is not called, nothing is
    looked up and nothing is dispatched. *)
Theorem bare_prefix_stops_quietly {CF : CaseFold}
    (h : Hooks) (w : World) (message : Message) (body : string) (prefixes : Prefixes)
    (c1 : CommandsClient) :
  content message = ContentStr body →
  get_prefix h message (client w) = (c1, Return prefixes) →
  strip_prefix (normalize_prefixes prefixes) body = Some "" →
  process_commands h message w =
  (mkWorld c1 (trace w ++ [CallGetPrefix message]), Return PyNone).
Proof.
  intros Hcontent Hprefix Hstrip. unfold process_commands. rewrite Hcontent.
  unfold bind, call. rewrite Hprefix. simpl. by rewrite Hstrip.
Qed.

Lemma bare_prefix_stops_quietly_witness :
  process_commands Runs.hooks (Runs.text "?") Runs.start =
  (mkWorld Examples.sensitive (trace Runs.start ++ [CallGetPrefix (Runs.text "?")]),
   Return PyNone).
Proof.
  apply (bare_prefix_stops_quietly Runs.hooks Runs.start (Runs.text "?") "?"
           (PrefixList ["!"; "?"]) Examples.sensitive);
    vm_compute; reflexivity.
Defined.

(** X17. When the tokenizer raises [StopIteration], the run stops with
    [None]: nothing is looked up and nothing is dispatched.  Any other
    exception of the tokenizer is raised to the caller. *)
Theorem tokenizer_without_word {CF : CaseFold}
    (h : Hooks) (w : World) (message : Message) (body : string) (prefixes : Prefixes)
    (c1 : CommandsClient) (rest : string) (view : StringView) (e : exn) :
  content message = ContentStr body →
  get_prefix h message (client w) = (c1, Return prefixes) →
  strip_prefix (normalize_prefixes prefixes) body = Some rest →
  Str.truthy rest = true →
  get_next_word h (mkStringView rest) = (view, Raise e) →
  process_commands h message w =
  (mkWorld c1 (trace w ++ [CallGetPrefix message; CallGetNextWord (mkStringView rest)]),
   if decide (e = StopIteration) then Return PyNone else Raise e).
Proof.
  intros Hcontent Hprefix Hstrip Hrest Hword. unfold process_commands. rewrite Hcontent.
  unfold bind at 1. unfold call at 1. rewrite Hprefix. simpl.
  rewrite Hstrip, Hrest. simpl.
  unfold bind at 1. unfold next_word, try_except at 1. rewrite Hword. simpl.
  rewrite <- app_assoc. simpl.
  case_bool_decide as He; case_decide; try done.
Qed.

Lemma tokenizer_without_word_witness :
  process_commands Runs.hooks (Runs.text "!   ") Runs.start =
  (mkWorld Examples.sensitive
           (trace Runs.start ++ [CallGetPrefix (Runs.text "!   ");
                                 CallGetNextWord (mkStringView "   ")]),
   Return PyNone) ∧
  process_commands Apps.broken_tokenizer (Runs.text "!ping") Runs.start =
  (mkWorld Examples.sensitive
           (trace Runs.start ++ [CallGetPrefix (Runs.text "!ping");
                                 CallGetNextWord (mkStringView "ping")]),
   Raise (OtherException 3)).
Proof.
  split.
  - apply (tokenizer_without_word Runs.hooks Runs.start (Runs.text "!   ") "!   "
             (PrefixList ["!"; "?"]) Examples.sensitive "   " (mkStringView "")
             StopIteration); vm_compute; reflexivity.
  - apply (tokenizer_without_word Apps.broken_tokenizer Runs.start (Runs.text "!ping")
             "!ping" (PrefixList ["!"; "?"]) Examples.sensitive "ping"
             (mkStringView "ping") (OtherException 3)); vm_compute; reflexivity.
Defined.

(** X18. An exception of [get_prefix] is raised to the caller of
    [process_commands], whatever its class: the call is outside of every
    [try].  With the [get_prefix] of [CommandsClient] itself, every text
    message raises [NotImplementedError]. *)
Theorem get_prefix_exception_propagates {CF : CaseFold}
    (h : Hooks) (w : World) (message : Message) (body : string) (c1 : CommandsClient)
    (e : exn) :
  content message = ContentStr body →
  get_prefix h message (client w) = (c1, Raise e) →
  process_commands h message w =
  (mkWorld c1 (trace w ++ [CallGetPrefix message]), Raise e).
Proof.
  intros Hcontent Hprefix. unfold process_commands. rewrite Hcontent.
  unfold bind, call. by rewrite Hprefix.
Qed.

Lemma get_prefix_exception_propagates_witness :
  process_commands Apps.unprefixed (Runs.text "!ping") Runs.start =
  (mkWorld Examples.sensitive (trace Runs.start ++ [CallGetPrefix (Runs.text "!ping")]),
   Raise NotImplementedError).
Proof.
  apply (get_prefix_exception_propagates Apps.unprefixed Runs.start (Runs.text "!ping")
           "!ping" Examples.sensitive NotImplementedError); reflexivity.
Defined.

(** X19. When the error handler of the command raises, its exception is
    raised to the caller of [process_commands] and command_error is not
    dispatched. *)
Theorem failing_error_handler_propagates {CF : CaseFold}
    (h : Hooks) (w : World) (message : Message) (body : string) (prefixes : Prefixes)
    (c1 : CommandsClient) (rest : string) (view : StringView) (command_name : string)
    (command : Command) (w2 : World) (e e' : exn) (c3 : CommandsClient) :
  content message = ContentStr body →
  get_prefix h message (client w) = (c1, Return prefixes) →
  strip_prefix (normalize_prefixes prefixes) body = Some rest →
  Str.truthy rest = true →
  get_next_word h (mkStringView rest) = (view, Return command_name) →
  get_command c1 command_name = Return command →
  run_command h (mkContext (Some command) command_name view message)
              (lookup_world w message c1 rest command_name) = (w2, Raise e) →
  is_Exception e = true →
  _error_handler h command (cog_or_self command)
                 (mkContext (Some command) command_name view message) e (client w2)
  = (c3, Raise e') →
  process_commands h message w =
  (mkWorld c3 (trace w2 ++
               [CallErrorHandler command (cog_or_self command)
                  (mkContext (Some command) command_name view message) e]),
   Raise e').
Proof.
  intros Hcontent Hprefix Hstrip Hrest Hword Hget Hrun He Hhandler.
  rewrite (process_commands_found h w message body prefixes c1 rest view command_name
             Hcontent Hprefix Hstrip Hrest Hword command Hget).
  unfold try_except. rewrite Hrun, He. by apply error_route_raises.
Qed.

Lemma failing_error_handler_propagates_witness :
  process_commands Apps.failing (Runs.text "!ping") Runs.start =
  (mkWorld Examples.sensitive
     ([CallGetPrefix (Runs.text "!ping");
       CallGetNextWord (mkStringView "ping");
       CallGetCommand "ping";
       Dispatch "command" Runs.ping_context NoArgs;
       CallBotCheck Runs.ping_context;
       CallCanRun Runs.ping_context;
       CallInvoke Runs.ping_context] ++
      [CallErrorHandler Examples.ping (cog_or_self Examples.ping) Runs.ping_context
         (OtherException 1)]),
   Raise (OtherException 2)).
Proof.
  apply (failing_error_handler_propagates Apps.failing Runs.start (Runs.text "!ping")
           "!ping" (PrefixList ["!"; "?"]) Examples.sensitive "ping" (mkStringView "")
           "ping" Examples.ping
           (mkWorld Examples.sensitive
              [CallGetPrefix (Runs.text "!ping");
               CallGetNextWord (mkStringView "ping");
               CallGetCommand "ping";
               Dispatch "command" Runs.ping_context NoArgs;
               CallBotCheck Runs.ping_context;
               CallCanRun Runs.ping_context;
               CallInvoke Runs.ping_context])
           (OtherException 1) (OtherException 2) Examples.sensitive);
    vm_compute; reflexivity.
Defined.

(** ** The pipeline and the client *)

Lemma keeps_client_ret {A} (a : A) : keeps_client (ret a).
Proof. intros w. done. Qed.

Lemma keeps_client_raise {A} (e : exn) : keeps_client (@raise A e).
Proof. intros w. done. Qed.

Lemma keeps_client_record (a : Action) : keeps_client (record a).
Proof. intros w. done. Qed.

Lemma keeps_client_query {A} (a : Action) (f : CommandsClient → result A) :
  keeps_client (query a f).
Proof. intros w. done. Qed.

Lemma keeps_client_call {A} (a : Action) (f : CommandsClient → CommandsClient * result A) :
  (∀ self, fst (f self) = self) → keeps_client (call a f).
Proof.
  intros Hf w. unfold call. specialize (Hf (client w)).
  destruct (f (client w)) as [c r]. done.
Qed.

Lemma keeps_client_bind {A B} (m : M A) (k : A → M B) :
  keeps_client m → (∀ a, keeps_client (k a)) → keeps_client (bind m k).
Proof.
  intros Hm Hk w. unfold bind. specialize (Hm w).
  destruct (m w) as [w' [a|e]]; simpl in *; [|done].
  rewrite <- Hm. apply Hk.
Qed.

Lemma keeps_client_try_except {A} (body : M A) (catches : exn → bool)
    (handler : exn → M A) :
  keeps_client body → (∀ e, keeps_client (handler e)) →
  keeps_client (try_except body catches handler).
Proof.
  intros Hbody Hhandler w. unfold try_except. specialize (Hbody w).
  destruct (body w) as [w' [a|e]]; simpl in *; [done|].
  destruct (catches e); [|done].
  rewrite <- Hbody. apply Hhandler.
Qed.

Lemma keeps_client_next_word (h : Hooks) (view : StringView) :
  keeps_client (next_word h view).
Proof.
  intros w. unfold next_word, try_except.
  destruct (get_next_word h view) as [view' [word|e]]; simpl; [done|].
  by case_bool_decide.
Qed.

(** X20. [process_commands] does not write to the client: when the hooks of
    the application leave the client as they find it, the client after the
    run is the client before it, for every message. *)
Theorem process_commands_keeps_client {CF : CaseFold} (h : Hooks) (message : Message) (w : World) :
  hooks_keep_client h →
  client (fst (process_commands h message w)) = client w.
Proof.
  intros (Hprefix & Hcheck & Hrun & Hinvoke & Hhandler). revert w.
  change (keeps_client (process_commands h message)).
  unfold process_commands. destruct (content message) as [body|tag];
    [|apply keeps_client_ret].
  apply keeps_client_bind; [by apply keeps_client_call|]. intros prefixes.
  destruct (strip_prefix (normalize_prefixes prefixes) body) as [rest|];
    [|apply keeps_client_ret].
  destruct (negb (Str.truthy rest)); [apply keeps_client_ret|].
  apply keeps_client_bind; [apply keeps_client_next_word|].
  intros [[view command_name]|]; [|apply keeps_client_ret].
  apply keeps_client_bind.
  { apply keeps_client_try_except; [|intros _; apply keeps_client_ret].
    apply keeps_client_bind; [apply keeps_client_query|].
    intros c. apply keeps_client_ret. }
  intros [command|].
  - apply keeps_client_try_except.
    + unfold run_command, dispatch.
      apply keeps_client_bind; [apply keeps_client_record|]. intros _.
      apply keeps_client_bind; [by apply keeps_client_call|].
      intros [|]; simpl; [|apply keeps_client_raise].
      apply keeps_client_bind; [by apply keeps_client_call|].
      intros [|]; simpl; [|apply keeps_client_raise].
      apply keeps_client_bind; [by apply keeps_client_call|]. intros output.
      apply keeps_client_bind; [apply keeps_client_record|]. intros _.
      apply keeps_client_ret.
    + intros e. unfold error_route, dispatch.
      apply keeps_client_bind; [by apply keeps_client_call|]. intros _.
      apply keeps_client_bind; [apply keeps_client_record|]. intros _.
      apply keeps_client_ret.
  - apply keeps_client_bind; [apply keeps_client_record|]. intros _.
    apply keeps_client_ret.
Qed.

Lemma process_commands_keeps_client_witness :
  client (fst (process_commands Runs.guarded (Runs.text "!ping") Runs.start))
  = client Runs.start.
Proof.
  apply (process_commands_keeps_client Runs.guarded (Runs.text "!ping") Runs.start).
  repeat split; reflexivity.
Defined.

(** ** Loading, unloading and reloading *)

(** X21. An exception of [import_module] is raised by [load_extension]; the
    client is not changed and [setup] is not called. *)
Theorem load_extension_import_error (h : Hooks) (w : World) (name : string) (e : exn) :
  import_module h name = Raise e →
  load_extension h name w =
  (mkWorld (client w) (trace w ++ [CallImportModule name]), Raise e).
Proof. intros Himport. unfold load_extension, bind, query. simpl. by rewrite Himport. Qed.

Lemma load_extension_import_error_witness :
  load_extension Runs.hooks "absent" Runs.start =
  (mkWorld (client Runs.start) (trace Runs.start ++ [CallImportModule "absent"]),
   Raise (OtherException 404)).
Proof.
  apply (load_extension_import_error Runs.hooks Runs.start "absent" (OtherException 404)).
  reflexivity.
Defined.

Lemma load_extension_with_setup (h : Hooks) (w : World) (name : string)
    (extension : Extension) (c' : CommandsClient) (r : result unit) :
  import_module h name = Return extension →
  has_setup extension = true →
  setup h extension
        (with_extensions (client w) (<[name := extension]> (extensions (client w))))
  = (c', r) →
  load_extension h name w =
  (mkWorld c' (trace w ++ [CallImportModule name; CallSetup extension]), r).
Proof.
  intros Himport Hsetup Hrun.
  unfold load_extension, bind, query, call. simpl. rewrite Himport, Hsetup. simpl.
  rewrite Hrun. by rewrite <- app_assoc.
Qed.

(** X22. A module with a [setup] is recorded under its name before [setup]
    is called; [setup] runs on the client that holds the record, and what it
    returns or raises is the outcome of [load_extension].  When [setup]
    raises without touching the table, the module stays recorded. *)
Theorem load_extension_records_before_setup (h : Hooks) (w : World) (name : string)
    (extension : Extension) (c' : CommandsClient) (r : result unit) :
  import_module h name = Return extension →
  has_setup extension = true →
  setup h extension
        (with_extensions (client w) (<[name := extension]> (extensions (client w))))
  = (c', r) →
  load_extension h name w =
  (mkWorld c' (trace w ++ [CallImportModule name; CallSetup extension]), r) ∧
  (extensions c' = <[name := extension]> (extensions (client w)) →
   get_extension (client (fst (load_extension h name w))) name = Return extension).
Proof.
  intros Himport Hsetup Hrun.
  pose proof (load_extension_with_setup h w name extension c' r Himport Hsetup Hrun)
    as Hload.
  split; [done|]. intros Hexts. rewrite Hload. simpl.
  unfold get_extension. rewrite Hexts. by rewrite lookup_insert_eq.
Qed.

Lemma load_extension_records_before_setup_witness :
  load_extension Apps.plugins "greeter" Runs.start =
  (mkWorld (add_command
              (with_extensions (client Runs.start)
                 (<["greeter" := Apps.greeter]> (extensions (client Runs.start))))
              Classes.greet_base)
           (trace Runs.start ++ [CallImportModule "greeter"; CallSetup Apps.greeter]),
   Return tt).
Proof.
  apply (load_extension_records_before_setup Apps.plugins Runs.start "greeter" Apps.greeter
           _ (Return tt)); reflexivity.
Defined.

(** X23. [unload_extension] on a name that is not loaded raises [KeyError]
    and changes neither the client nor [sys.modules]. *)
Theorem unload_extension_not_loaded
    (teardown : Extension → CommandsClient → CommandsClient * result unit)
    (name : string) (modules : gset string) (self : CommandsClient) :
  get_extension self name = Raise (KeyError name) →
  unload_extension teardown name modules self = (modules, self, Raise (KeyError name)).
Proof.
  unfold get_extension, unload_extension.
  by destruct (extensions self !! name).
Qed.

Lemma unload_extension_not_loaded_witness :
  unload_extension Apps.teardown "greeter" {["greeter"]} Examples.sensitive
  = ({["greeter"]}, Examples.sensitive, Raise (KeyError "greeter")).
Proof.
  apply (unload_extension_not_loaded Apps.teardown "greeter" {["greeter"]}
           Examples.sensitive).
  reflexivity.
Defined.

(** X24. Unloading a loaded module that is in [sys.modules] takes it out of
    the table and out of [sys.modules].  Without a [teardown] the call
    returns and the registry is as before: the commands that the module
    added stay.  With a [teardown], the function runs on the client that no
    longer holds the record, and its outcome is the outcome of the call. *)
Theorem unload_extension_loaded
    (teardown : Extension → CommandsClient → CommandsClient * result unit)
    (name : string) (modules : gset string) (self : CommandsClient)
    (extension : Extension) :
  get_extension self name = Return extension →
  name ∈ modules →
  (has_teardown extension = false →
   unload_extension teardown name modules self =
   (modules ∖ {[name]}, with_extensions self (delete name (extensions self)), Return tt) ∧
   all_commands (snd (fst (unload_extension teardown name modules self)))
   = all_commands self ∧
   get_extension (snd (fst (unload_extension teardown name modules self))) name
   = Raise (KeyError name)) ∧
  (has_teardown extension = true →
   unload_extension teardown name modules self =
   (modules ∖ {[name]},
    fst (teardown extension (with_extensions self (delete name (extensions self)))),
    snd (teardown extension (with_extensions self (delete name (extensions self)))))) ∧
  name ∉ fst (fst (unload_extension teardown name modules self)).
Proof.
  intros Hget Hin. unfold get_extension in Hget.
  destruct (extensions self !! name) as [ext|] eqn:Hlk; [|done].
  injection Hget as ->.
  unfold unload_extension. rewrite Hlk. rewrite decide_True by done.
  split; [|split].
  - intros Htd. rewrite Htd. simpl. split; [done|]. split; [done|].
    unfold get_extension. simpl. by rewrite lookup_delete_eq.
  - intros Htd. rewrite Htd.
    by destruct (teardown extension _) as [c r].
  - destruct (has_teardown extension); [destruct (teardown extension _) as [c r]|];
      simpl; set_solver.
Qed.

Lemma unload_extension_loaded_witness :
  unload_extension Apps.teardown "greeter" {["greeter"]} (client Apps.loaded) =
  ({["greeter"]} ∖ {["greeter"]},
   fst (Apps.teardown Apps.greeter
          (with_extensions (client Apps.loaded)
                           (delete "greeter" (extensions (client Apps.loaded))))),
   snd (Apps.teardown Apps.greeter
          (with_extensions (client Apps.loaded)
                           (delete "greeter" (extensions (client Apps.loaded)))))).
Proof.
  apply (unload_extension_loaded Apps.teardown "greeter" {["greeter"]} (client Apps.loaded)
           Apps.greeter).
  - vm_compute. reflexivity.
  - set_solver.
  - reflexivity.
Defined.

(** X25. When the module is loaded but its name is no key of [sys.modules],
    [unload_extension] raises [KeyError] after the record was taken out of
    the table, and [teardown] is not run. *)
Theorem unload_extension_module_missing
    (teardown : Extension → CommandsClient → CommandsClient * result unit)
    (name : string) (modules : gset string) (self : CommandsClient)
    (extension : Extension) :
  get_extension self name = Return extension →
  name ∉ modules →
  unload_extension teardown name modules self =
  (modules, with_extensions self (delete name (extensions self)), Raise (KeyError name)).
Proof.
  intros Hget Hout. unfold get_extension in Hget.
  destruct (extensions self !! name) as [ext|] eqn:Hlk; [|done].
  unfold unload_extension. rewrite Hlk. by rewrite decide_False.
Qed.

Lemma unload_extension_module_missing_witness :
  unload_extension Apps.teardown "greeter" ∅ (client Apps.loaded) =
  (∅, with_extensions (client Apps.loaded)
                      (delete "greeter" (extensions (client Apps.loaded))),
   Raise (KeyError "greeter")).
Proof.
  apply (unload_extension_module_missing Apps.teardown "greeter" ∅ (client Apps.loaded)
           Apps.greeter).
  - vm_compute. reflexivity.
  - set_solver.
Defined.

(** X26. [reload_extension] on a name that is not loaded raises [KeyError]
    and does nothing else: nothing is imported and the client is as
    before. *)
Theorem reload_extension_not_loaded (h : Hooks)
    (teardown : Extension → CommandsClient → CommandsClient * result unit)
    (name : string) (modules : gset string) (w : World) :
  get_extension (client w) name = Raise (KeyError name) →
  reload_extension h teardown name modules w = (modules, w, Raise (KeyError name)).
Proof.
  intros Hget. unfold reload_extension, unload_extension. unfold get_extension in Hget.
  destruct (extensions (client w) !! name); [done|]. by destruct w.
Qed.

Lemma reload_extension_not_loaded_witness :
  reload_extension Apps.plugins Apps.teardown "greeter" {["greeter"]} Runs.start
  = ({["greeter"]}, Runs.start, Raise (KeyError "greeter")).
Proof.
  apply (reload_extension_not_loaded Apps.plugins Apps.teardown "greeter" {["greeter"]}
           Runs.start).
  reflexivity.
Defined.

(** X27. [reload_extension] is not atomic: when the module unloads and the
    import then fails, the exception of the import is raised and the client
    is the one that [unload_extension] left, in which the module is not
    loaded if [teardown] did not load it again. *)
Theorem reload_extension_import_error (h : Hooks)
    (teardown : Extension → CommandsClient → CommandsClient * result unit)
    (name : string) (modules modules' : gset string) (w : World)
    (self' : CommandsClient) (e : exn) :
  unload_extension teardown name modules (client w) = (modules', self', Return tt) →
  import_module h name = Raise e →
  reload_extension h teardown name modules w =
  (modules', mkWorld self' (trace w ++ [CallImportModule name]), Raise e) ∧
  (extensions self' = delete name (extensions (client w)) →
   get_extension self' name = Raise (KeyError name)).
Proof.
  intros Hunload Himport. split.
  - unfold reload_extension. rewrite Hunload.
    rewrite (load_extension_import_error h _ name e Himport).
    unfold imported. by rewrite Himport.
  - intros Hexts. unfold get_extension. by rewrite Hexts, lookup_delete_eq.
Qed.

Lemma reload_extension_import_error_witness :
  reload_extension Runs.hooks Apps.teardown "greeter" {["greeter"]} Apps.loaded =
  (∅,
   mkWorld (snd (remove_command
                   (with_extensions (client Apps.loaded)
                      (delete "greeter" (extensions (client Apps.loaded)))) "greet"))
           (trace Apps.loaded ++ [CallImportModule "greeter"]),
   Raise (OtherException 404)).
Proof.
  apply (reload_extension_import_error Runs.hooks Apps.teardown "greeter" {["greeter"]} ∅
           Apps.loaded _ (OtherException 404)).
  - unfold unload_extension.
    assert (Hlk : extensions (client Apps.loaded) !! "greeter" = Some Apps.greeter)
      by (vm_compute; reflexivity).
    rewrite Hlk. rewrite decide_True by set_solver. simpl.
    replace ({["greeter"]} ∖ {["greeter"]} : gset string) with (∅ : gset string)
      by set_solver.
    reflexivity.
  - reflexivity.
Defined.

(** X28. Reloading a loaded module whose import succeeds and that has a
    [setup] runs [unload_extension], imports the module, records it and runs
    [setup] on the client that [unload_extension] left. *)
Theorem reload_extension_loads_again (h : Hooks)
    (teardown : Extension → CommandsClient → CommandsClient * result unit)
    (name : string) (modules modules' : gset string) (w : World)
    (self' c' : CommandsClient) (extension : Extension) (r : result unit) :
  unload_extension teardown name modules (client w) = (modules', self', Return tt) →
  import_module h name = Return extension →
  has_setup extension = true →
  setup h extension (with_extensions self' (<[name := extension]> (extensions self')))
  = (c', r) →
  reload_extension h teardown name modules w =
  ({[name]} ∪ modules',
   mkWorld c' (trace w ++ [CallImportModule name; CallSetup extension]), r).
Proof.
  intros Hunload Himport Hsetup Hrun. unfold reload_extension. rewrite Hunload.
  rewrite (load_extension_with_setup h (mkWorld self' (trace w)) name extension c' r
             Himport Hsetup Hrun).
  unfold imported. by rewrite Himport.
Qed.

Lemma reload_extension_loads_again_witness :
  reload_extension Apps.plugins Apps.teardown "greeter" {["greeter"]} Apps.loaded =
  ({["greeter"]} ∪ ∅,
   mkWorld (add_command
              (with_extensions Apps.unloaded
                               (<["greeter" := Apps.greeter]> (extensions Apps.unloaded)))
              Classes.greet_base)
           (trace Apps.loaded ++ [CallImportModule "greeter"; CallSetup Apps.greeter]),
   Return tt).
Proof.
  apply (reload_extension_loads_again Apps.plugins Apps.teardown "greeter" {["greeter"]} ∅
           Apps.loaded Apps.unloaded _ Apps.greeter (Return tt)).
  - unfold unload_extension.
    assert (Hlk : extensions (client Apps.loaded) !! "greeter" = Some Apps.greeter)
      by (vm_compute; reflexivity).
    rewrite Hlk. rewrite decide_True by set_solver. simpl.
    replace ({["greeter"]} ∖ {["greeter"]} : gset string) with (∅ : gset string)
      by set_solver.
    reflexivity.
  - reflexivity.
  - reflexivity.
  - reflexivity.
Defined.

(** ** Cogs *)

(** X29. [remove_cog] on a name that is no key of the cog table raises
    [KeyError] and leaves the client as it was.  Otherwise the cog is taken
    out of the table before [_uninject] runs: when [_uninject] does not write
    to the table, the name is no longer a key afterwards, whether
    [_uninject] returned, in which case the cog is returned, or raised, in
    which case its exception is raised. *)
Theorem remove_cog_takes_cog_out
    (_uninject : Cog → CommandsClient → CommandsClient * result unit)
    (self : CommandsClient) (cog_name : string) :
  (∀ cog s, cogs (fst (_uninject cog s)) = cogs s) →
  (get_cog self cog_name = Raise (KeyError cog_name) →
   remove_cog _uninject self cog_name = (self, Raise (KeyError cog_name))) ∧
  (∀ cog, get_cog self cog_name = Return cog →
     get_cog (fst (remove_cog _uninject self cog_name)) cog_name
     = Raise (KeyError cog_name) ∧
     (∀ u, snd (_uninject cog (with_cogs self (delete cog_name (cogs self)))) = Return u →
           snd (remove_cog _uninject self cog_name) = Return cog) ∧
     (∀ e, snd (_uninject cog (with_cogs self (delete cog_name (cogs self)))) = Raise e →
           snd (remove_cog _uninject self cog_name) = Raise e)).
Proof.
  intros Hkeep. unfold get_cog, remove_cog.
  destruct (cogs self !! cog_name) as [cog0|] eqn:Hlk.
  - split; [done|]. intros cog [= <-].
    specialize (Hkeep cog0 (with_cogs self (delete cog_name (cogs self)))).
    destruct (_uninject cog0 _) as [s [u|e]]; simpl in *.
    + rewrite Hkeep, lookup_delete_eq. split; [done|]. split; [done|]. intros e [=].
    + rewrite Hkeep, lookup_delete_eq. split; [done|]. split; [intros u [=]|].
      by intros e' [= ->].
  - split; [done|]. intros cog [=].
Qed.

Lemma remove_cog_takes_cog_out_witness :
  remove_cog Apps.uninject Examples.fresh "A" = (Examples.fresh, Raise (KeyError "A")) ∧
  get_cog (fst (remove_cog Apps.uninject Apps.with_cog "A")) "A" = Raise (KeyError "A") ∧
  snd (remove_cog Apps.uninject Apps.with_cog "A") = Return Apps.cog_a.
Proof.
  assert (Hkeep : ∀ cog s, cogs (fst (Apps.uninject cog s)) = cogs s).
  { intros cog s. unfold Apps.uninject. simpl. apply remove_command_other_fields. }
  assert (Hget : get_cog Apps.with_cog "A" = Return Apps.cog_a) by (vm_compute; reflexivity).
  destruct (remove_cog_takes_cog_out Apps.uninject Examples.fresh "A" Hkeep) as [Habsent _].
  destruct (proj2 (remove_cog_takes_cog_out Apps.uninject Apps.with_cog "A" Hkeep)
              Apps.cog_a Hget) as (Hgone & Hreturned & _).
  split; [apply Habsent; reflexivity|]. split; [exact Hgone|].
  apply (Hreturned tt). reflexivity.
Defined.

(** ** Spellings *)

(** X30. In a case-insensitive registry, a command that was added is found
    under every spelling of its name and of each of its aliases. *)
Theorem case_insensitive_lookup_any_spelling {CF : CaseFold} (self : CommandsClient) (c : Command)
    (k k' : string) :
  Registry.case_insensitive (all_commands self) = true →
  k' = name c ∨ k' ∈ aliases c →
  casefold k = casefold k' →
  get_command (add_command self c) k = Return c.
Proof.
  intros Hci Hk' Hfold. rewrite get_command_add_command.
  rewrite decide_True; [done|].
  assert (Hk : Registry.fold_key (all_commands self) k
               = Registry.fold_key (all_commands self) k').
  { unfold Registry.fold_key. by rewrite Hci. }
  rewrite Hk. by apply key_in_keys_of.
Qed.

Lemma case_insensitive_lookup_any_spelling_witness :
  get_command (add_command (init [] Examples.help_impl 0 None true) Examples.ping) "PONG"
  = Return Examples.ping.
Proof.
  apply (case_insensitive_lookup_any_spelling (init [] Examples.help_impl 0 None true)
           Examples.ping "PONG" "pong").
  - reflexivity.
  - right. vm_compute. right. left.
  - vm_compute. reflexivity.
Defined.

(** ** ASCII keys *)

(** On ASCII keys every fold is the ASCII lowering, so that what a concrete
    run on ASCII text shows holds for [str.casefold]. *)
Lemma fold_key_ascii {CF : CaseFold} (d : Registry.t) (k : string) :
  Str.is_ascii k = true →
  Registry.fold_key d k = Registry.fold_key (CF := ascii_fold) d k.
Proof.
  intros Hk. unfold Registry.fold_key.
  destruct (Registry.case_insensitive d); [|done]. by apply casefold_ascii.
Qed.

Lemma setitem_ascii {CF : CaseFold} (d : Registry.t) (k : string) (c : Command) :
  Str.is_ascii k = true →
  Registry.setitem d k c = Registry.setitem (CF := ascii_fold) d k c.
Proof. intros Hk. unfold Registry.setitem. by rewrite (fold_key_ascii d k Hk). Qed.

Lemma register_ascii {CF : CaseFold} (d : Registry.t) (c : Command) :
  ascii_command c = true →
  register d c = register (CF := ascii_fold) d c.
Proof.
  unfold ascii_command, register, set_aliases. intros Hc.
  apply andb_prop in Hc as [Hname Haliases].
  rewrite (setitem_ascii d (name c) c Hname).
  generalize (Registry.setitem (CF := ascii_fold) d (name c) c). intros d'.
  revert d' Haliases. induction (aliases c) as [|a l IH]; intros d' Hl; simpl in *; [done|].
  apply andb_prop in Hl as [Ha Hl]. rewrite (setitem_ascii d' a c Ha). by apply IH.
Qed.

Lemma seed_ascii {CF : CaseFold} (d : Registry.t) (cmds : list Command) :
  forallb ascii_command cmds = true →
  seed d cmds = seed (CF := ascii_fold) d cmds.
Proof.
  unfold seed. revert d. induction cmds as [|c cmds IH]; intros d Hall; simpl in *; [done|].
  apply andb_prop in Hall as [Hc Hall]. rewrite (register_ascii d c Hc). by apply IH.
Qed.

Lemma add_command_ascii {CF : CaseFold} (self : CommandsClient) (c : Command) :
  ascii_command c = true →
  add_command self c = add_command (CF := ascii_fold) self c.
Proof. intros Hc. unfold add_command. by rewrite (register_ascii _ c Hc). Qed.

Lemma init_ascii {CF : CaseFold} (cmds : list Command) (help_impl : Command)
    (next_oid : nat) (supplied : option HelpCommand) (ci : bool) :
  forallb ascii_command cmds = true →
  ascii_command help_impl = true →
  init cmds help_impl next_oid supplied ci
  = init (CF := ascii_fold) cmds help_impl next_oid supplied ci.
Proof.
  intros Hcmds Hhelp. unfold init.
  rewrite (seed_ascii _ cmds Hcmds).
  destruct supplied; by rewrite (add_command_ascii _ help_impl Hhelp).
Qed.

Lemma get_command_ascii {CF : CaseFold} (self : CommandsClient) (k : string) :
  Str.is_ascii k = true →
  get_command self k = get_command (CF := ascii_fold) self k.
Proof.
  intros Hk. unfold get_command, Registry.getitem. by rewrite (fold_key_ascii _ k Hk).
Qed.

(** The run on [Ping] for every fold, [str.casefold] among them: the entry
    is found as PING, and [remove_command] with Ping or PING returns [None]
    and leaves it in place. *)
Lemma remove_command_keeps_entry_for_every_fold {CF : CaseFold} :
  get_command (add_command (init [] Examples.help_impl 0 None true) Examples.Ping) "PING"
  = Return Examples.Ping ∧
  fst (remove_command (add_command (init [] Examples.help_impl 0 None true) Examples.Ping)
                      "Ping") = None ∧
  fst (remove_command (add_command (init [] Examples.help_impl 0 None true) Examples.Ping)
                      "PING") = None ∧
  get_command
    (snd (remove_command (add_command (init [] Examples.help_impl 0 None true) Examples.Ping)
                         "PING")) "PING" = Return Examples.Ping.
Proof.
  rewrite (init_ascii [] Examples.help_impl 0 None true) by reflexivity.
  rewrite (add_command_ascii _ Examples.Ping) by reflexivity.
  repeat split; try rewrite (get_command_ascii _ "PING") by reflexivity;
    vm_compute; reflexivity.
Qed.
